(** * ObjectionClassficationUI: the COCO review tool and the VOC to COCO converter

    A shallow embedding of the two Python programs of the repository:
    the annotator ([COCOAnnotator], a PyQt window over a COCO document) and
    the converter ([voc_to_coco]).

    Modelling conventions.
    - A Python [str] is a list of Unicode code points ([list N]); [str.strip],
      [str.split], [in] and the comparison used by [sorted] are written out
      on code points.
    - A Python [dict] is an association list in insertion order: assigning to
      a key that is present replaces the value in place, a new key goes to
      the end, [del] removes the entry.
    - Python integers are unbounded: [Z].
    - Methods of the window are computations in a state-and-exception monad
      over the fields of the object; a mutation made before an exception is
      raised stays made.
    - The file system is a finite map from paths to files; a file holds text,
      or bytes that stop decoding after some lines have been read.
    - The boundary with PyQt, OpenCV, [json] and ElementTree is typed: the
      COCO document and the VOC annotation files are taken parsed, with the
      fields the programs read. *)

From Stdlib Require Import ZArith NArith List String Ascii Lia.
From stdpp Require Import base tactics option list strings gmap sets sorting.

Local Open Scope Z_scope.

(** ** Python strings *)

Definition char := N.
Definition str := list N.

(** [lit "abc"] is the Python literal ['abc'] (ASCII literals only). *)
Definition lit (s : string) : str :=
  map N_of_ascii (list_ascii_of_string s).

Definition COLON : char := 58%N.
Definition SPACE : char := 32%N.
Definition LF : char := 10%N.
Definition CR : char := 13%N.

(** ** Python dictionaries, in insertion order *)

Section PyDict.
Context {K V : Type} `{EqDecision K}.

Definition dict := list (K * V).

(** [d.get(k)] *)
Fixpoint dict_get (k : K) (d : dict) : option V :=
  match d with
  | [] => None
  | (k', v) :: d' => if decide (k = k') then Some v else dict_get k d'
  end.

(** [k in d] *)
Definition dict_contains (k : K) (d : dict) : bool :=
  bool_decide (is_Some (dict_get k d)).

(** [d[k] = v] *)
Fixpoint dict_set (k : K) (v : V) (d : dict) : dict :=
  match d with
  | [] => [(k, v)]
  | (k', v') :: d' =>
      if decide (k = k') then (k', v) :: d' else (k', v') :: dict_set k v d'
  end.

(** [del d[k]] (the callers test [k in d] first) *)
Fixpoint dict_del (k : K) (d : dict) : dict :=
  match d with
  | [] => []
  | (k', v') :: d' =>
      if decide (k = k') then d' else (k', v') :: dict_del k d'
  end.

(** [len(d)] *)
Definition dict_len (d : dict) : Z := Z.of_nat (length d).

(** [d.items()] and [d.keys()] *)
Definition dict_items (d : dict) : list (K * V) := d.
Definition dict_keys (d : dict) : list K := d.*1.

(** A dictionary holds each key once. *)
Definition dict_wf (d : dict) : Prop := NoDup (dict_keys d).

(** [d1 == d2]: the same keys with the same values, in any order. *)
Definition dict_eq (d1 d2 : dict) : Prop :=
  ∀ k, dict_get k d1 = dict_get k d2.

End PyDict.

Arguments dict : clear implicits.

(** ** Exceptions *)

Inductive exn :=
| IndexError
| KeyError
| ValueError
| FileNotFoundError
| UnicodeDecodeError.

(** A call returns a value or raises. *)
Inductive result (A : Type) :=
| Ok (a : A)
| Raise (e : exn).
Arguments Ok {A} a.
Arguments Raise {A} e.

(** ** Operations on Python strings and lists *)

(** [len(l)] *)
Definition len {A} (l : list A) : Z := Z.of_nat (length l).

(** [l[i]]: a negative index counts from the end; [None] is [IndexError]. *)
Definition py_index {A} (l : list A) (i : Z) : option A :=
  if bool_decide (0 ≤ i < len l) then l !! Z.to_nat i
  else if bool_decide (- len l ≤ i < 0) then l !! Z.to_nat (len l + i)
  else None.

(** [c.isspace()]: the code points Python counts as whitespace. *)
Definition isspace (c : char) : bool :=
  ((9 <=? c) && (c <=? 13) || (28 <=? c) && (c <=? 32)
   || (c =? 133) || (c =? 160) || (c =? 5760)
   || (8192 <=? c) && (c <=? 8202)
   || (c =? 8232) || (c =? 8233) || (c =? 8239) || (c =? 8287)
   || (c =? 12288))%N.

(** [s.lstrip()], [s.rstrip()], [s.strip()] *)
Fixpoint lstrip (s : str) : str :=
  match s with
  | [] => []
  | c :: s' => if isspace c then lstrip s' else s
  end.

Definition rstrip (s : str) : str := rev (lstrip (rev s)).

Definition strip (s : str) : str := rstrip (lstrip s).

(** [s.split(sep)] for a separator of one character: every occurrence
    splits, so a string with [n] separators gives [n + 1] pieces. *)
Fixpoint split (sep : char) (s : str) : list str :=
  match s with
  | [] => [[]]
  | c :: s' =>
      if decide (c = sep) then [] :: split sep s'
      else match split sep s' with
           | p :: ps => (c :: p) :: ps
           | [] => [[c]]
           end
  end.

(** [split_first sep s]: what is before and after the first [sep] of [s],
    if there is one. *)
Fixpoint split_first (sep : char) (s : str) : option (str * str) :=
  match s with
  | [] => None
  | c :: s' =>
      if decide (c = sep) then Some ([], s')
      else match split_first sep s' with
           | Some (a, b) => Some (c :: a, b)
           | None => None
           end
  end.

(** [c in s] *)
Definition str_contains (c : char) (s : str) : bool := bool_decide (c ∈ s).

(** The lines a text file yields when iterated in text mode: a line ends
    at ['\n'], ['\r'] or ['\r\n'], each handed over as ['\n']; the last
    line may have no terminator. *)
Fixpoint readlines (s : str) : list str :=
  match s with
  | [] => []
  | c :: s' =>
      if decide (c = LF) then [LF] :: readlines s'
      else if decide (c = CR) then
        [LF] :: match s' with
                | [] => []
                | c2 :: s'' => if decide (c2 = LF) then readlines s''
                               else readlines s'
                end
      else match readlines s' with
           | l :: ls =>
               (* [c] goes in front of the line that starts at [s'],
                  unless [s'] is empty *)
               (c :: l) :: ls
           | [] => [[c]]
           end
  end.

(** The shape of a line the reader yields: no line break but, maybe, the
    ['\n'] that ends it. *)
Definition line_shape (l : str) : Prop :=
  ∃ body, (l = body ++ [LF] ∨ l = body) ∧ (LF ∉ body) ∧ (CR ∉ body).

(** [s1 < s2] and [s1 <= s2] on strings: by code point, a proper prefix
    first. *)
Fixpoint str_ltb (s1 s2 : str) : bool :=
  match s1, s2 with
  | [], [] => false
  | [], _ :: _ => true
  | _ :: _, [] => false
  | c1 :: s1', c2 :: s2' =>
      if (c1 <? c2)%N then true
      else if (c2 <? c1)%N then false
      else str_ltb s1' s2'
  end.

Definition str_lt (s1 s2 : str) : Prop := str_ltb s1 s2 = true.
Definition str_le (s1 s2 : str) : Prop := str_ltb s2 s1 = false.

#[global] Instance str_le_dec : RelDecision str_le.
Proof. intros s1 s2. unfold str_le. apply _. Defined.

(** [sorted(l)] on a list of strings. *)
Definition sorted (l : list str) : list str := merge_sort str_le l.

(** ** The annotator: [COCOAnnotator] *)

Module Annotator.

(** The two labels, ["稀疏"] (sparse) and ["密集"] (dense). *)
Definition SPARSE : str := [31232; 30095]%N.
Definition DENSE : str := [23494; 38598]%N.

(** An entry of [annot_data["annotations"]]; [bbox] is [[x, y, w, h]]. *)
Record AnnotationRecord := {
  ann_id : Z;
  ann_image_id : Z;
  ann_category_id : Z;
  ann_bbox : Z * Z * Z * Z;
  ann_area : Z;
  ann_iscrowd : Z
}.

(** An entry of [annot_data["images"]]. *)
Record ImageEntry := {
  img_id : Z;
  img_file_name : str
}.

(** The parsed annotation file. *)
Record CocoDocument := {
  images : list ImageEntry;
  annotations : list AnnotationRecord
}.

(** An entry of [self.image_info]. *)
Record ImageRecord := {
  rec_id : Z;
  rec_file_name : str;
  rec_annotations : list AnnotationRecord
}.

(** A file on disk: text, or bytes on which the decoder raises after the
    reader has handed over the lines [decoded]. *)
Inductive file :=
| Text (content : str)
| Undecodable (decoded : list str).

(** What the program prints. *)
Inductive message :=
| ImportFailed (e : exn)
| CannotLoadImage (file_name : str).

(** The fields of the window. [progress_maximum] and [progress_value] are
    the values last handed to [progress_bar.setMaximum] and
    [progress_bar.setValue]; [files] is the disk and [console] the standard
    output. *)
Record annotator := {
  annot_data : option CocoDocument;
  image_info : list ImageRecord;
  current_index : Z;
  classifications : dict str str;
  sparse_check : bool;
  dense_check : bool;
  progress_maximum : Z;
  progress_value : Z;
  files : gmap str file;
  console : list message
}.

Definition set_annot_data v (st : annotator) : annotator :=
  {| annot_data := v; image_info := image_info st;
     current_index := current_index st;
     classifications := classifications st;
     sparse_check := sparse_check st; dense_check := dense_check st;
     progress_maximum := progress_maximum st;
     progress_value := progress_value st;
     files := files st; console := console st |}.

Definition set_image_info v (st : annotator) : annotator :=
  {| annot_data := annot_data st; image_info := v;
     current_index := current_index st;
     classifications := classifications st;
     sparse_check := sparse_check st; dense_check := dense_check st;
     progress_maximum := progress_maximum st;
     progress_value := progress_value st;
     files := files st; console := console st |}.

Definition set_current_index v (st : annotator) : annotator :=
  {| annot_data := annot_data st; image_info := image_info st;
     current_index := v;
     classifications := classifications st;
     sparse_check := sparse_check st; dense_check := dense_check st;
     progress_maximum := progress_maximum st;
     progress_value := progress_value st;
     files := files st; console := console st |}.

Definition set_classifications v (st : annotator) : annotator :=
  {| annot_data := annot_data st; image_info := image_info st;
     current_index := current_index st;
     classifications := v;
     sparse_check := sparse_check st; dense_check := dense_check st;
     progress_maximum := progress_maximum st;
     progress_value := progress_value st;
     files := files st; console := console st |}.

Definition set_sparse_check v (st : annotator) : annotator :=
  {| annot_data := annot_data st; image_info := image_info st;
     current_index := current_index st;
     classifications := classifications st;
     sparse_check := v; dense_check := dense_check st;
     progress_maximum := progress_maximum st;
     progress_value := progress_value st;
     files := files st; console := console st |}.

Definition set_dense_check v (st : annotator) : annotator :=
  {| annot_data := annot_data st; image_info := image_info st;
     current_index := current_index st;
     classifications := classifications st;
     sparse_check := sparse_check st; dense_check := v;
     progress_maximum := progress_maximum st;
     progress_value := progress_value st;
     files := files st; console := console st |}.

Definition set_progress (maximum value : Z) (st : annotator) : annotator :=
  {| annot_data := annot_data st; image_info := image_info st;
     current_index := current_index st;
     classifications := classifications st;
     sparse_check := sparse_check st; dense_check := dense_check st;
     progress_maximum := maximum;
     progress_value := value;
     files := files st; console := console st |}.

Definition set_files v (st : annotator) : annotator :=
  {| annot_data := annot_data st; image_info := image_info st;
     current_index := current_index st;
     classifications := classifications st;
     sparse_check := sparse_check st; dense_check := dense_check st;
     progress_maximum := progress_maximum st;
     progress_value := progress_value st;
     files := v; console := console st |}.

Definition set_console v (st : annotator) : annotator :=
  {| annot_data := annot_data st; image_info := image_info st;
     current_index := current_index st;
     classifications := classifications st;
     sparse_check := sparse_check st; dense_check := dense_check st;
     progress_maximum := progress_maximum st;
     progress_value := progress_value st;
     files := files st; console := v |}.

(** *** Methods as computations over the window's fields *)

Definition M (A : Type) : Type := annotator → result A * annotator.

#[global] Instance M_ret : MRet M := λ A a st, (Ok a, st).

#[global] Instance M_bind : MBind M := λ A B f m st,
  match m st with
  | (Ok a, st') => f a st'
  | (Raise e, st') => (Raise e, st')
  end.

Definition get : M annotator := λ st, (Ok st, st).
Definition modify (f : annotator → annotator) : M unit := λ st, (Ok (), f st).
Definition raise {A} (e : exn) : M A := λ st, (Raise e, st).

(** [try: body except Exception as e: handler(e)] *)
Definition try_except (body : M unit) (handler : exn → M unit) : M unit :=
  λ st, match body st with
        | (Ok a, st') => (Ok a, st')
        | (Raise e, st') => handler e st'
        end.

(** [for x in l: f(x)] *)
Fixpoint for_each {A} (l : list A) (f : A → M unit) : M unit :=
  match l with
  | [] => mret ()
  | x :: l' => f x;; for_each l' f
  end.

(** [print(...)] *)
Definition print (m : message) : M unit :=
  modify (λ st, set_console (console st ++ [m]) st).

(** *** [load_annotations] *)

(** [{img["id"]: img["file_name"] for img in annot_data["images"]}] *)
Definition img_id_to_name (doc : CocoDocument) : dict Z str :=
  fold_left (λ d img, dict_set (img_id img) (img_file_name img) d)
            (images doc) [].

(** One turn of the grouping loop. *)
Definition group_step (anns_by_img : dict Z (list AnnotationRecord))
    (ann : AnnotationRecord) : dict Z (list AnnotationRecord) :=
  let img_id := ann_image_id ann in
  let anns_by_img :=
    if negb (dict_contains img_id anns_by_img)
    then dict_set img_id [] anns_by_img
    else anns_by_img in
  match dict_get img_id anns_by_img with
  | Some l => dict_set img_id (l ++ [ann]) anns_by_img
  | None => anns_by_img (* [KeyError]: the key has just been put in *)
  end.

Definition anns_by_img (doc : CocoDocument) : dict Z (list AnnotationRecord) :=
  fold_left group_step (annotations doc) [].

(** [doc] is what [json.load] returns for the annotation file. *)
Definition load_annotations (doc : CocoDocument) : M unit :=
  modify (set_annot_data (Some doc));;
  let img_id_to_name := img_id_to_name doc in
  let anns_by_img := anns_by_img doc in
  for_each (dict_items img_id_to_name) (λ '(img_id, file_name),
    let annotations := default [] (dict_get img_id anns_by_img) in
    modify (λ st, set_image_info
      (image_info st ++ [{| rec_id := img_id;
                            rec_file_name := file_name;
                            rec_annotations := annotations |}]) st)).


(** The record [load_annotations] makes of an entry of the name map. *)
Definition record_of (doc : CocoDocument) (entry : Z * str) : ImageRecord :=
  {| rec_id := entry.1;
     rec_file_name := entry.2;
     rec_annotations := default [] (dict_get entry.1 (anns_by_img doc)) |}.

(** *** The two check boxes *)

Inductive checkbox := sparse_box | dense_box.

Definition isChecked (box : checkbox) (st : annotator) : bool :=
  match box with
  | sparse_box => sparse_check st
  | dense_box => dense_check st
  end.

Definition set_check (box : checkbox) (v : bool) : annotator → annotator :=
  match box with
  | sparse_box => set_sparse_check v
  | dense_box => set_dense_check v
  end.

Definition other (box : checkbox) : checkbox :=
  match box with
  | sparse_box => dense_box
  | dense_box => sparse_box
  end.

(** [box.setChecked(v)]: when the state changes, [stateChanged] runs the
    slot [single_check(box)], which may call [setChecked] on the other box.
    [n] bounds the depth of slots running inside slots. *)
Fixpoint setChecked_upto (n : nat) (box : checkbox) (v : bool) : M unit :=
  st ← get;
  if decide (isChecked box st = v) then mret ()
  else
    modify (set_check box v);;
    match n with
    | O => mret ()
    | S n' =>
        (* [single_check(box)] *)
        st ← get;
        if isChecked box st then setChecked_upto n' (other box) false
        else mret ()
    end.

(** Two levels are all a call can reach: the slot of the other box finds
    it unchecked (see [setChecked_upto_enough]). *)
Definition setChecked : checkbox → bool → M unit := setChecked_upto 2.

Definition single_check (checked_box : checkbox) : M unit :=
  st ← get;
  if isChecked checked_box st then setChecked (other checked_box) false
  else mret ().

(** *** The methods that need the disk of images *)

Section WithImages.
(** [loadable file_name]: [cv2.imread] finds and decodes the image. *)
Variable loadable : str → bool.

Definition update_progress : M unit :=
  st ← get;
  let total := len (image_info st) in
  let classified := dict_len (classifications st) in
  modify (set_progress total classified).

Definition show_image : M unit :=
  st ← get;
  if bool_decide (current_index st < 0 ∨
                  len (image_info st) ≤ current_index st)
  then mret ()
  else
    match py_index (image_info st) (current_index st) with
    | None => raise IndexError
    | Some img_info =>
        let file_name := rec_file_name img_info in
        if negb (loadable file_name) then print (CannotLoadImage file_name)
        else
          (* the boxes and the names of the categories are drawn here *)
          let image_name := file_name in
          match dict_get image_name (classifications st) with
          | Some classification =>
              setChecked sparse_box (bool_decide (classification = SPARSE));;
              setChecked dense_box (bool_decide (classification = DENSE))
          | None =>
              setChecked sparse_box false;;
              setChecked dense_box false
          end
    end.

Definition show_prev_image : M unit :=
  modify (λ st, set_current_index (Z.max 0 (current_index st - 1)) st);;
  show_image.

Definition show_next_image : M unit :=
  modify (λ st, set_current_index
                  (Z.min (len (image_info st) - 1) (current_index st + 1)) st);;
  show_image.

Definition save_classification : M unit :=
  st ← get;
  match py_index (image_info st) (current_index st) with
  | None => raise IndexError
  | Some img_info =>
      let file_name := rec_file_name img_info in
      (if sparse_check st then
         modify (λ st, set_classifications
                         (dict_set file_name SPARSE (classifications st)) st)
       else if dense_check st then
         modify (λ st, set_classifications
                         (dict_set file_name DENSE (classifications st)) st)
       else if dict_contains file_name (classifications st) then
         modify (λ st, set_classifications
                         (dict_del file_name (classifications st)) st)
       else mret ());;
      update_progress
  end.

Definition quick_classify (classification : str) : M unit :=
  (if decide (classification = SPARSE) then
     setChecked sparse_box true;;
     setChecked dense_box false
   else
     setChecked sparse_box false;;
     setChecked dense_box true);;
  save_classification.

Definition save_and_next : M unit :=
  save_classification;;
  show_next_image.

(** One line of the progress file. *)
Definition import_line (line : str) : M unit :=
  if str_contains COLON line then
    match split COLON (strip line) with
    | [image_name; classification] =>
        modify (λ st, set_classifications
                        (dict_set (strip image_name) (strip classification)
                                  (classifications st)) st)
    | _ => raise ValueError (* the two names do not take the pieces *)
    end
  else mret ().

(** The lines the reader yields, and how reading ends. *)
Definition read file : list str * option exn :=
  match file with
  | Text content => (readlines content, None)
  | Undecodable decoded => (decoded, Some UnicodeDecodeError)
  end.

(** [file_path] is the answer of the file dialog, empty when cancelled. *)
Definition import_progress (file_path : str) : M unit :=
  if decide (file_path = []) then mret ()
  else
    try_except
      (st ← get;
       match files st !! file_path with
       | None => raise FileNotFoundError
       | Some f =>
           let '(lines, ending) := read f in
           for_each lines import_line;;
           match ending with
           | Some e => raise e
           | None => mret ()
           end
       end;;
       update_progress;;
       show_image)
      (λ e, print (ImportFailed e)).

(** The text [export_results] writes. *)
Definition export_text (classifications : dict str str) : str :=
  concat (map (λ '(image_name, classification),
                 image_name ++ [COLON; SPACE] ++ classification ++ [LF])
              (dict_items classifications)).

Definition export_results (file_path : str) : M unit :=
  if decide (file_path = []) then mret ()
  else
    modify (λ st, set_files
      (<[file_path := Text (export_text (classifications st))]> (files st)) st).

(** *** The window from start to the event loop *)

(** The object before [__init__] fills it; a fresh progress bar runs from
    0 to 100 with no value. *)
Definition blank (disk : gmap str file) : annotator :=
  {| annot_data := None; image_info := []; current_index := 0;
     classifications := [];
     sparse_check := false; dense_check := false;
     progress_maximum := 100; progress_value := -1;
     files := disk; console := [] |}.

Definition init_ui : M unit :=
  update_progress;;
  modify (set_sparse_check false);;
  modify (set_dense_check false).

Definition init (doc : CocoDocument) : M unit :=
  load_annotations doc;;
  init_ui;;
  show_image.

(** What the user can do; a click on a check box toggles it. *)
Inductive event :=
| KeyLeft | KeyRight | Key1 | Key2 | KeySpace
| ClickSparse | ClickDense
| ClickPrev | ClickNext | ClickSave
| ClickImport (file_path : str)
| ClickExport (file_path : str).

Definition handle (ev : event) : M unit :=
  match ev with
  | KeyLeft | ClickPrev => show_prev_image
  | KeyRight | ClickNext => show_next_image
  | Key1 => quick_classify SPARSE
  | Key2 => quick_classify DENSE
  | KeySpace | ClickSave => save_and_next
  | ClickSparse => st ← get; setChecked sparse_box (negb (sparse_check st))
  | ClickDense => st ← get; setChecked dense_box (negb (dense_check st))
  | ClickImport file_path => import_progress file_path
  | ClickExport file_path => export_results file_path
  end.

(** The window after a slot has run, whether it returned or raised. *)
Definition dispatch (st : annotator) (ev : event) : annotator :=
  (handle ev st).2.

Definition startup (doc : CocoDocument) (disk : gmap str file) : annotator :=
  (init doc (blank disk)).2.

Definition run (evs : list event) (st : annotator) : annotator :=
  fold_left dispatch evs st.

(** The moves of the cursor: [advance] is [show_next_image], [retreat] is
    [show_prev_image]. *)
Inductive move := advance | retreat.

Definition step (m : move) : M unit :=
  match m with
  | advance => show_next_image
  | retreat => show_prev_image
  end.

Definition navigate (ms : list move) : M unit := for_each ms step.

(** Export to [file_path], then import the file into an empty map. *)
Definition export_import (file_path : str) : M unit :=
  export_results file_path;;
  modify (set_classifications []);;
  import_progress file_path.

End WithImages.

(** What one move does to the cursor. *)
Definition moved (m : move) (n c : Z) : Z :=
  match m with
  | advance => Z.min (n - 1) (c + 1)
  | retreat => Z.max 0 (c - 1)
  end.

(** *** The progress file, on the map alone *)

(** A line as the specification words it: split on the first [:], both
    parts trimmed; a line without [:] is skipped. *)
Definition spec_import_line (line : str) (d : dict str str) : dict str str :=
  match split_first COLON line with
  | Some (image_name, classification) =>
      dict_set (strip image_name) (strip classification) d
  | None => d
  end.

(** The line [export_results] writes for an entry. *)
Definition export_line (entry : str * str) : str :=
  entry.1 ++ [COLON; SPACE] ++ entry.2 ++ [LF].

(** What [import_line] does to the map, or the exception it raises. *)
Definition merge_line (line : str) (d : dict str str) : result (dict str str) :=
  if str_contains COLON line then
    match split COLON (strip line) with
    | [image_name; classification] =>
        Ok (dict_set (strip image_name) (strip classification) d)
    | _ => Raise ValueError
    end
  else Ok d.

(** The map after the loop over the lines, and the exception that ended
    the loop if one did: the lines before it have been merged. *)
Fixpoint merged (lines : list str) (d : dict str str)
    : dict str str * option exn :=
  match lines with
  | [] => (d, None)
  | line :: lines' =>
      match merge_line line d with
      | Ok d' => merged lines' d'
      | Raise e => (d, Some e)
      end
  end.

(** How an import of the file [f] ends: with the exception of the loop, or
    with that of the reader when the loop has seen all its lines. *)
Definition import_outcome (f : file) (d : dict str str)
    : dict str str * option exn :=
  let '(lines, ending) := read f in
  match merged lines d with
  | (d', Some e) => (d', Some e)
  | (d', None) => (d', ending)
  end.

(** A name or label the progress file gives back as it took it: no [:], no
    line break, no white space at either end. *)
Definition clean (s : str) : Prop :=
  (COLON ∉ s) ∧ (LF ∉ s) ∧ (CR ∉ s) ∧ strip s = s.

#[global] Instance clean_dec s : Decision (clean s).
Proof. unfold clean. apply _. Defined.

(** Maps with more than one entry, with a space inside a name. *)
Definition clean_map : dict str str :=
  [(lit "a.jpg", SPARSE); (lit "b c.jpg", DENSE); (lit "d.jpg", SPARSE)].

(** *** Properties kept by a method *)

(** [preserves I m]: if [I] holds of the window when [m] starts, it holds
    when [m] returns or raises. *)
Definition preserves {A} (I : annotator → Prop) (m : M A) : Prop :=
  ∀ st, I st → I (m st).2.

(** A property of the data of the window: it does not look at the check
    boxes or at what has been printed. *)
Definition of_data (I : annotator → Prop) : Prop :=
  ∀ st, I st →
    (∀ v, I (set_sparse_check v st)) ∧
    (∀ v, I (set_dense_check v st)) ∧
    (∀ v, I (set_console v st)).

(** At most one of the two labels is active. *)
Definition exclusive (st : annotator) : Prop :=
  ¬ (sparse_check st = true ∧ dense_check st = true).

(** The invariant of the window: the labels exclude each other and the map
    holds a file name once. *)
Definition labelled (st : annotator) : Prop :=
  exclusive st ∧ dict_wf (classifications st).

(** The actions that read a progress file. *)
Definition is_import (ev : event) : bool :=
  match ev with
  | ClickImport _ => true
  | _ => false
  end.

(** The progress bar shows the map and the records, and the map names only
    files of the records. *)
Definition counted (ii : list ImageRecord) (st : annotator) : Prop :=
  image_info st = ii ∧
  progress_value st = dict_len (classifications st) ∧
  progress_maximum st = len ii ∧
  dict_wf (classifications st) ∧
  Forall (λ name, name ∈ rec_file_name <$> ii) (dict_keys (classifications st)).

(** The label the boxes stand for, as [save_classification] reads them. *)
Definition label_of_boxes (st : annotator) : option str :=
  if sparse_check st then Some SPARSE
  else if dense_check st then Some DENSE
  else None.

(** *** Inputs for the examples *)

(** A window whose map holds a label that is neither of the two, for the
    first image. *)
Definition foreign_window : annotator :=
  {| annot_data := None;
     image_info := [ {| rec_id := 7; rec_file_name := lit "a.jpg";
                        rec_annotations := [] |};
                     {| rec_id := 3; rec_file_name := lit "b.jpg";
                        rec_annotations := [] |} ];
     current_index := 0;
     classifications := [(lit "a.jpg", lit "maybe"); (lit "b.jpg", DENSE)];
     sparse_check := true; dense_check := false;
     progress_maximum := 2; progress_value := 2;
     files := ∅; console := [] |}.

(** A window with no record. *)
Definition empty_window : annotator :=
  {| annot_data := Some {| images := []; annotations := [] |};
     image_info := []; current_index := 0; classifications := [];
     sparse_check := false; dense_check := false;
     progress_maximum := 0; progress_value := 0;
     files := ∅; console := [] |}.

(** An input with two images, three annotations for the second and none
    for the first. *)
Definition sample_ann (id image : Z) : AnnotationRecord :=
  {| ann_id := id; ann_image_id := image; ann_category_id := 1;
     ann_bbox := (0, 0, 4, 4); ann_area := 16; ann_iscrowd := 0 |}.

Definition sample_doc : CocoDocument :=
  {| images := [ {| img_id := 7; img_file_name := lit "a.jpg" |};
                 {| img_id := 3; img_file_name := lit "b.jpg" |} ];
     annotations := [sample_ann 1 3; sample_ann 2 3; sample_ann 3 3] |}.

(** Two inputs that are not valid: two images with one id, and an
    annotation that names no image. *)
Definition duplicate_doc : CocoDocument :=
  {| images := [ {| img_id := 7; img_file_name := lit "a.jpg" |};
                 {| img_id := 7; img_file_name := lit "b.jpg" |} ];
     annotations := [sample_ann 1 7] |}.

Definition orphan_doc : CocoDocument :=
  {| images := [ {| img_id := 7; img_file_name := lit "a.jpg" |} ];
     annotations := [sample_ann 1 7; sample_ann 2 9] |}.

(** A progress file of three lines, the second with two [:]. *)
Definition progress_path : str := lit "progress.txt".

Definition two_colons : str := lit "b.jpg: x: y".

Definition progress_text : str :=
  lit "a.jpg: " ++ SPARSE ++ [LF] ++
  two_colons ++ [LF] ++
  lit "c.jpg: " ++ DENSE ++ [LF].

(** A file that stops decoding after its first line has been read. *)
Definition cut_file : file := Undecodable [lit "a.jpg: " ++ SPARSE ++ [LF]].

(** A progress file with names that no image of [sample_doc] has. *)
Definition other_text : str :=
  lit "x.jpg: " ++ SPARSE ++ [LF] ++
  lit "y.jpg: " ++ DENSE ++ [LF] ++
  lit "z.jpg: " ++ DENSE ++ [LF].

(** A map whose one file name starts with a space. *)
Definition spaced_map : dict str str := [(lit " a.jpg", SPARSE)].

End Annotator.

(** ** The converter: [voc_to_coco] *)

Module Voc2Coco.

Local Open Scope string_scope.
Local Open Scope list_scope.

(** The values the converter puts in its dictionaries. *)
Inductive value :=
| VNone
| VInt (n : Z)
| VStr (s : str)
| VList (l : list Z).

#[global] Instance value_eq_dec : EqDecision value.
Proof. solve_decision. Defined.

(** A dictionary with literal keys, as [json.dump] writes it. *)
Definition object := dict string value.

(** An [<object>] element of an annotation file, its numbers read by
    [int]. *)
Record voc_object := {
  name : str;
  difficult : Z;
  xmin : Z;
  ymin : Z;
  xmax : Z;
  ymax : Z
}.

(** A parsed annotation file. *)
Record voc_xml := {
  width : Z;
  height : Z;
  objects : list voc_object
}.

(** The VOC directory: [split_file s] is the list of ids that
    [f.read().strip().splitlines()] gives for [ImageSets/Main/<s>.txt]
    ([None]: the file cannot be opened), [image_exists i] tells whether
    [JPEGImages/<i>.jpg] exists, [annotation_file i] is
    [Annotations/<i>.xml] ([None]: no such file). *)
Record voc_tree := {
  split_file : str → option (list str);
  image_exists : str → bool;
  annotation_file : str → option voc_xml
}.

(** The order in which a [set] hands over its elements. It follows the
    hashes of the strings, which change from one run to the next, so all
    that is known of [list(s)] is that it holds each element of [s] once;
    a set is kept as the sequence of its [add] calls. *)
Record set_order := {
  set_list : list str → list str;
  set_list_NoDup : ∀ adds, NoDup (set_list adds);
  set_list_elem : ∀ adds x, x ∈ set_list adds ↔ x ∈ adds
}.

(** The variables of one turn of the loop over the splits. *)
Record build := {
  images : list object;
  annotations : list object;
  category_names : list str;
  annotation_id : Z
}.

Definition start : build :=
  {| images := []; annotations := []; category_names := [];
     annotation_id := 1 |}.

(** The body of [for obj in root.findall('object')]; [image_id] is
    [image['id']]. *)
Definition object_step (image_id : Z) (b : build) (obj : voc_object) : build :=
  let category_name := name obj in
  let w := xmax obj - xmin obj in
  let h := ymax obj - ymin obj in
  let annotation : object :=
    [("id", VInt (annotation_id b));
     ("image_id", VInt image_id);
     ("category_id", VNone);
     ("bbox", VList [xmin obj; ymin obj; w; h]);
     ("area", VInt (w * h));
     ("iscrowd", VInt 0);
     ("difficult", VInt (difficult obj));
     ("category_name", VStr category_name)] in
  {| images := images b;
     annotations := annotations b ++ [annotation];
     category_names := category_names b ++ [category_name];
     annotation_id := annotation_id b + 1 |}.

(** The body of [for image_id in image_ids]: an id is passed over unless
    its image and its annotation file both exist. *)
Definition image_step (t : voc_tree) (b : build) (image_id : str) : build :=
  match annotation_file t image_id with
  | Some root =>
      if negb (image_exists t image_id) then b
      else
        let id := len (images b) + 1 in
        let image : object :=
          [("id", VInt id);
           ("file_name", VStr (image_id ++ lit ".jpg"));
           ("width", VInt (width root));
           ("height", VInt (height root))] in
        fold_left (object_step id)
                  (objects root)
                  {| images := images b ++ [image];
                     annotations := annotations b;
                     category_names := category_names b;
                     annotation_id := annotation_id b |}
  | None => b
  end.

(** The loop that builds [categories], with its counter. *)
Definition category_step (acc : list object * Z) (category_name : str)
    : list object * Z :=
  let '(categories, category_id) := acc in
  (categories ++ [[("id", VInt category_id);
                   ("name", VStr category_name);
                   ("supercategory", VStr (lit "none"))]],
   category_id + 1).

Definition build_categories (names : list str) : list object :=
  (fold_left category_step names ([], 1)).1.

(** [d[k]] on an object. *)
Definition field (k : string) (d : object) : result value :=
  match dict_get k d with
  | Some v => Ok v
  | None => Raise KeyError
  end.

(** [[cat['id'] for cat in categories if cat['name'] == category_name]] *)
Definition matching_ids (categories : list object) (category_name : value)
    : list value :=
  omap (λ cat, if decide (dict_get "name" cat = Some category_name)
               then dict_get "id" cat else None) categories.

(** The body of [for ann in annotations]. *)
Definition resolve (categories : list object) (ann : object) : result object :=
  match field "category_name" ann with
  | Raise e => Raise e
  | Ok category_name =>
      match matching_ids categories category_name with
      | [] => Raise IndexError
      | id :: _ => Ok (dict_del "category_name" (dict_set "category_id" id ann))
      end
  end.

Fixpoint resolve_all (categories : list object) (anns : list object)
    : result (list object) :=
  match anns with
  | [] => Ok []
  | ann :: anns' =>
      match resolve categories ann with
      | Raise e => Raise e
      | Ok ann' =>
          match resolve_all categories anns' with
          | Raise e => Raise e
          | Ok anns'' => Ok (ann' :: anns'')
          end
      end
  end.

(** The document written for a split. *)
Record coco_data := {
  out_images : list object;
  out_annotations : list object;
  out_categories : list object
}.

Section WithOrder.
Variable order : set_order.

(** One turn of [for set_name in sets], up to [coco_data]. *)
Definition convert_split (t : voc_tree) (set_name : str) : result coco_data :=
  match split_file t set_name with
  | None => Raise FileNotFoundError
  | Some image_ids =>
      let b := fold_left (image_step t) image_ids start in
      let categories :=
        build_categories (sorted (set_list order (category_names b))) in
      match resolve_all categories (annotations b) with
      | Raise e => Raise e
      | Ok annotations =>
          Ok {| out_images := images b;
                out_annotations := annotations;
                out_categories := categories |}
      end
  end.

(** The documents written, by split, and the exception that stopped the
    run if one did. *)
Fixpoint convert_splits (t : voc_tree) (sets : list str)
    : list (str * coco_data) * option exn :=
  match sets with
  | [] => ([], None)
  | set_name :: sets' =>
      match convert_split t set_name with
      | Raise e => ([], Some e)
      | Ok coco =>
          let '(written, e) := convert_splits t sets' in
          ((set_name, coco) :: written, e)
      end
  end.

Definition voc_to_coco (t : voc_tree) : list (str * coco_data) * option exn :=
  convert_splits t [lit "train"; lit "val"].

End WithOrder.

(** *** What the converter writes, in closed form *)

(** The ids of a split that are converted, each with its annotation file:
    those whose image and annotation file both exist. *)
Definition processed (t : voc_tree) (image_ids : list str)
    : list (str * voc_xml) :=
  omap (λ image_id,
          if image_exists t image_id
          then (λ root, (image_id, root)) <$> annotation_file t image_id
          else None)
       image_ids.

(** The objects of the converted files, in order, each with the id given
    to its image: the [n]-th converted file (from 0) has image id [n + 1]. *)
Definition tagged (ps : list (str * voc_xml)) : list (Z * voc_object) :=
  concat (imap (λ n p, (λ obj, (Z.of_nat n + 1, obj)) <$> objects p.2) ps).

(** The class names seen, one per object. *)
Definition observed (ps : list (str * voc_xml)) : list str :=
  (λ io, name io.2) <$> tagged ps.

Definition image_of (id : Z) (p : str * voc_xml) : object :=
  [("id", VInt id);
   ("file_name", VStr (p.1 ++ lit ".jpg"));
   ("width", VInt (width p.2));
   ("height", VInt (height p.2))].

(** An annotation as the object loop builds it. *)
Definition annotation_of (id : Z) (io : Z * voc_object) : object :=
  [("id", VInt id);
   ("image_id", VInt io.1);
   ("category_id", VNone);
   ("bbox", VList [xmin io.2; ymin io.2;
                   xmax io.2 - xmin io.2; ymax io.2 - ymin io.2]);
   ("area", VInt ((xmax io.2 - xmin io.2) * (ymax io.2 - ymin io.2)));
   ("iscrowd", VInt 0);
   ("difficult", VInt (difficult io.2));
   ("category_name", VStr (name io.2))].

(** An annotation as it is written, with its category id. *)
Definition written_annotation (id category_id : Z) (io : Z * voc_object)
    : object :=
  [("id", VInt id);
   ("image_id", VInt io.1);
   ("category_id", VInt category_id);
   ("bbox", VList [xmin io.2; ymin io.2;
                   xmax io.2 - xmin io.2; ymax io.2 - ymin io.2]);
   ("area", VInt ((xmax io.2 - xmin io.2) * (ymax io.2 - ymin io.2)));
   ("iscrowd", VInt 0);
   ("difficult", VInt (difficult io.2))].

Definition category_of (id : Z) (category_name : str) : object :=
  [("id", VInt id);
   ("name", VStr category_name);
   ("supercategory", VStr (lit "none"))].

(** The place of a name in a list, counted from 1 (0 if it is not there). *)
Fixpoint place (category_name : str) (names : list str) : Z :=
  match names with
  | [] => 0
  | c :: names' =>
      if decide (c = category_name) then 1
      else match place category_name names' with
           | 0 => 0
           | n => n + 1
           end
  end.

(** The build after the ids of [ps] have been converted. *)
Definition build_of (ps : list (str * voc_xml)) : build :=
  {| images := imap (λ n p, image_of (Z.of_nat n + 1) p) ps;
     annotations := imap (λ k io, annotation_of (Z.of_nat k + 1) io) (tagged ps);
     category_names := observed ps;
     annotation_id := len (tagged ps) + 1 |}.

(** The names of the categories of a split, in the order of their ids. *)
Definition sorted_names (order : set_order) (ps : list (str * voc_xml))
    : list str :=
  sorted (set_list order (observed ps)).

(** The document of a split whose converted files are [ps]. *)
Definition document_of (order : set_order) (ps : list (str * voc_xml))
    : coco_data :=
  {| out_images := imap (λ n p, image_of (Z.of_nat n + 1) p) ps;
     out_annotations :=
       imap (λ k io, written_annotation
                       (Z.of_nat k + 1)
                       (place (name io.2) (sorted_names order ps)) io)
            (tagged ps);
     out_categories :=
       imap (λ k c, category_of (Z.of_nat k + 1) c) (sorted_names order ps) |}.

(** An id the loop passes over: its image or its annotation file is not
    there. *)
Definition missing (t : voc_tree) (image_id : str) : Prop :=
  image_exists t image_id = false ∨ annotation_file t image_id = None.

(** The directory [t] with [image_ids] as the index of [set_name]. *)
Definition with_split (t : voc_tree) (set_name : str) (image_ids : list str)
    : voc_tree :=
  {| split_file := λ s,
       if decide (s = set_name) then Some image_ids else split_file t s;
     image_exists := image_exists t;
     annotation_file := annotation_file t |}.

(** A box with its corners in order. *)
Definition oriented (obj : voc_object) : Prop :=
  (xmin obj ≤ xmax obj)%Z ∧ (ymin obj ≤ ymax obj)%Z.

(** *** Inputs for the examples *)

(** A directory whose splits list three ids, the second without image. *)
Definition gap_tree : voc_tree :=
  {| split_file := λ _, Some [lit "a"; lit "gone"; lit "b"];
     image_exists := λ image_id, bool_decide (image_id ≠ lit "gone");
     annotation_file := λ _,
       Some {| width := 64; height := 48;
               objects := [ {| name := lit "pine"; difficult := 1;
                               xmin := 1; ymin := 2; xmax := 5; ymax := 9 |};
                            {| name := lit "fir"; difficult := 0;
                               xmin := 0; ymin := 0; xmax := 3; ymax := 3 |} ]
            |} |}.

(** A directory with no index file for [val]. *)
Definition train_only : voc_tree :=
  {| split_file := λ set_name,
       if decide (set_name = lit "train") then Some [lit "a"] else None;
     image_exists := λ _, true;
     annotation_file := annotation_file gap_tree |}.

Definition tree_object : voc_object :=
  {| name := lit "tree"; difficult := 0;
     xmin := 10; ymin := 10; xmax := 50; ymax := 60 |}.

Definition tree_xml : voc_xml :=
  {| width := 100; height := 200; objects := [tree_object] |}.

(** A directory whose [train] split lists two ids, each with an image and
    an annotation file of one object of class ["tree"]. *)
Definition two_trees : voc_tree :=
  {| split_file := λ set_name,
       if decide (set_name = lit "train") then Some [lit "a"; lit "b"]
       else Some [];
     image_exists := λ _, true;
     annotation_file := λ _, Some tree_xml |}.

(** A directory whose splits list two ids, neither of which can be
    converted: ["gone"] has an annotation file and no image, ["bare"] an
    image and no annotation file. *)
Definition lost_tree : voc_tree :=
  {| split_file := λ _, Some [lit "gone"; lit "bare"];
     image_exists := λ image_id, bool_decide (image_id ≠ lit "gone");
     annotation_file := λ image_id,
       if decide (image_id = lit "bare") then None else Some tree_xml |}.

(** A set that hands its elements over in the order they were added. *)
Definition insertion_order : set_order :=
  {| set_list := remove_dups;
     set_list_NoDup := NoDup_remove_dups;
     set_list_elem := λ adds x, elem_of_remove_dups adds x |}.

End Voc2Coco.

(** ** Facts about dictionaries *)

Section PyDictFacts.
Context {K V : Type} `{EqDecision K}.
Implicit Types (d : dict K V) (k : K) (v : V).

Lemma dict_get_None k d : dict_get k d = None ↔ k ∉ dict_keys d.
Proof.
  induction d as [|[k' v] d IH]; simpl.
  - split; [intros _; apply not_elem_of_nil | done].
  - case_decide as Hk; subst.
    + split; [done | intros []; left].
    + rewrite IH, not_elem_of_cons. tauto.
Qed.

Lemma dict_get_Some_elem k v d : dict_get k d = Some v → (k, v) ∈ d.
Proof.
  induction d as [|[k' v'] d IH]; simpl; [done|].
  case_decide; subst.
  - intros [= ->]. left.
  - intros. right. auto.
Qed.

Lemma dict_get_Some_wf k v d :
  dict_wf d → (k, v) ∈ d → dict_get k d = Some v.
Proof.
  unfold dict_wf, dict_keys.
  induction d as [|[k' v'] d IH]; simpl; intros Hnd Hin.
  - by apply elem_of_nil in Hin.
  - apply NoDup_cons in Hnd as [Hk' Hnd].
    apply elem_of_cons in Hin as [[= -> ->] | Hin].
    + by rewrite decide_True.
    + case_decide; subst; [|by auto].
      exfalso. apply Hk'.
      apply list_elem_of_fmap. by exists (k', v).
Qed.

Lemma dict_set_fresh k v d :
  k ∉ dict_keys d → dict_set k v d = d ++ [(k, v)].
Proof.
  induction d as [|[k' v'] d IH]; simpl; [done|].
  rewrite not_elem_of_cons. intros [Hne Hk].
  rewrite decide_False by done. by rewrite IH.
Qed.

Lemma dict_keys_set k v d :
  dict_keys (dict_set k v d) =
    if dict_contains k d then dict_keys d else dict_keys d ++ [k].
Proof.
  unfold dict_contains, dict_keys.
  induction d as [|[k' v'] d IH]; simpl; [done|].
  case_decide as Hk; subst; simpl.
  - done.
  - destruct (bool_decide (is_Some (dict_get k d))); simpl; f_equal; exact IH.
Qed.

Lemma dict_get_set k k' v d :
  dict_get k' (dict_set k v d) =
    if decide (k' = k) then Some v else dict_get k' d.
Proof.
  induction d as [|[k0 v0] d IH]; simpl.
  - by repeat case_decide.
  - repeat (case_decide; simpl; subst); try done.
    all: rewrite IH; by repeat case_decide.
Qed.

Lemma dict_set_wf k v d : dict_wf d → dict_wf (dict_set k v d).
Proof.
  unfold dict_wf. rewrite dict_keys_set.
  unfold dict_contains. case_bool_decide as Hc; [done|].
  intros Hnd. apply NoDup_app. split; [done|]. split.
  - intros x Hx ->%list_elem_of_singleton.
    apply Hc. destruct (dict_get k d) eqn:E; [eauto|].
    by apply dict_get_None in E.
  - apply NoDup_singleton.
Qed.

Lemma dict_keys_del k d : dict_keys (dict_del k d) ⊆ dict_keys d.
Proof.
  unfold dict_keys.
  induction d as [|[k' v'] d IH]; simpl; [done|].
  case_decide; simpl.
  - intros x Hx. by right.
  - intros x [->|Hx]%elem_of_cons; [left | right; by apply IH].
Qed.

Lemma dict_del_wf k d : dict_wf d → dict_wf (dict_del k d).
Proof.
  unfold dict_wf, dict_keys.
  induction d as [|[k' v'] d IH]; simpl; [done|].
  intros [Hk' Hnd]%NoDup_cons. case_decide; [done|]. simpl.
  apply NoDup_cons. split; [|by auto].
  intros Hin. apply Hk'. by apply (dict_keys_del k d).
Qed.

Lemma dict_get_del k k' d :
  dict_wf d →
  dict_get k' (dict_del k d) = if decide (k' = k) then None else dict_get k' d.
Proof.
  unfold dict_wf, dict_keys.
  induction d as [|[k0 v0] d IH]; simpl; intros Hnd.
  - by case_decide.
  - apply NoDup_cons in Hnd as [Hk0 Hnd].
    destruct (decide (k = k0)) as [->|Hk]; simpl.
    + destruct (decide (k' = k0)) as [->|Hk']; [|done].
      by apply dict_get_None.
    + destruct (decide (k' = k0)) as [->|Hk'].
      * by rewrite decide_False.
      * by apply IH.
Qed.
End PyDictFacts.

(** ** Facts about strings *)

Section StringFacts.
Implicit Types (s x y : str) (c : char).

Lemma lstrip_length s : (length (lstrip s) ≤ length s)%nat.
Proof.
  induction s as [|c s IH]; simpl; [done|].
  destruct (isspace c); simpl; lia.
Qed.

Lemma lstrip_same_length s : length (lstrip s) = length s → lstrip s = s.
Proof.
  destruct s as [|c s]; simpl; [done|].
  destruct (isspace c); [|done].
  pose proof (lstrip_length s). lia.
Qed.

Lemma rstrip_length s : (length (rstrip s) ≤ length s)%nat.
Proof.
  unfold rstrip. rewrite length_rev.
  etrans; [apply lstrip_length|]. by rewrite length_rev.
Qed.

(** A string that [strip] leaves alone is left alone at both ends. *)
Lemma strip_fixed s : strip s = s → lstrip s = s ∧ rstrip s = s.
Proof.
  intros Hs. assert (lstrip s = s) as Hl.
  { apply lstrip_same_length.
    pose proof (lstrip_length s). pose proof (rstrip_length (lstrip s)).
    unfold strip in Hs. rewrite Hs in *. lia. }
  split; [done|]. unfold strip in Hs. by rewrite Hl in Hs.
Qed.

Lemma lstrip_app_l x y : lstrip x ≠ [] → lstrip (x ++ y) = lstrip x ++ y.
Proof.
  induction x as [|c x IH]; simpl; [done|].
  destruct (isspace c); [exact IH | done].
Qed.

Lemma lstrip_fixed_app x c y :
  lstrip x = x → isspace c = false → lstrip (x ++ c :: y) = x ++ c :: y.
Proof.
  intros Hx Hc. destruct x as [|c' x].
  - simpl. by rewrite Hc.
  - rewrite lstrip_app_l; rewrite Hx; done.
Qed.

Lemma rstrip_snoc x c :
  rstrip (x ++ [c]) = if isspace c then rstrip x else x ++ [c].
Proof.
  unfold rstrip. rewrite rev_app_distr. simpl.
  destruct (isspace c); [done|].
  simpl. by rewrite rev_involutive.
Qed.

Lemma rstrip_app_r x y : rstrip y ≠ [] → rstrip (x ++ y) = x ++ rstrip y.
Proof.
  unfold rstrip. intros Hy. rewrite rev_app_distr.
  rewrite lstrip_app_l.
  - by rewrite rev_app_distr, rev_involutive.
  - intros E. apply Hy. by rewrite E.
Qed.

Lemma split_no_sep c s : c ∉ s → split c s = [s].
Proof.
  induction s as [|c' s IH]; simpl; [done|].
  rewrite not_elem_of_cons. intros [Hne Hs].
  rewrite decide_False by done. by rewrite IH.
Qed.

Lemma split_app_sep c x y : c ∉ x → split c (x ++ c :: y) = x :: split c y.
Proof.
  induction x as [|c' x IH]; simpl.
  - intros _. by rewrite decide_True.
  - rewrite not_elem_of_cons. intros [Hne Hx].
    rewrite decide_False by done. by rewrite IH.
Qed.

Lemma split_nonempty c s : ∃ p ps, split c s = p :: ps.
Proof.
  destruct s as [|c' s]; simpl; [by eauto|].
  case_decide; [by eauto|]. destruct (split c s); eauto.
Qed.

(** A separator gives at least two pieces. *)
Lemma split_sep_two c s : c ∈ s → ∃ p q r, split c s = p :: q :: r.
Proof.
  induction s as [|c' s IH]; [by intros ?%elem_of_nil|].
  simpl. case_decide as Hc.
  - intros _. destruct (split_nonempty c s) as (q & r & ->). eauto.
  - intros [?|Hin]%elem_of_cons; [done|].
    destruct (IH Hin) as (p & q & r & ->). eauto.
Qed.

(** A line ends at its terminator when there is none before. *)
Lemma readlines_line x rest :
  LF ∉ x → CR ∉ x → readlines (x ++ LF :: rest) = (x ++ [LF]) :: readlines rest.
Proof.
  induction x as [|c x IH]; simpl.
  - done.
  - rewrite !not_elem_of_cons. intros [Hl Hx] [Hr Hx'].
    rewrite !decide_False by done. by rewrite IH.
Qed.

Lemma lstrip_mid a c b :
  isspace c = false → lstrip (a ++ c :: b) = lstrip a ++ c :: b.
Proof.
  intros Hc. induction a as [|c' a IH]; simpl.
  - by rewrite Hc.
  - by destruct (isspace c').
Qed.

Lemma rstrip_mid a c b :
  isspace c = false → rstrip (a ++ c :: b) = a ++ c :: rstrip b.
Proof.
  intros Hc. unfold rstrip. rewrite rev_app_distr. simpl.
  rewrite <- app_assoc. simpl. rewrite lstrip_mid by done.
  rewrite rev_app_distr. simpl. rewrite rev_involutive.
  by rewrite <- app_assoc.
Qed.

Lemma strip_mid a c b :
  isspace c = false → strip (a ++ c :: b) = lstrip a ++ c :: rstrip b.
Proof.
  intros Hc. unfold strip. by rewrite lstrip_mid, rstrip_mid.
Qed.

Lemma lstrip_idem s : lstrip (lstrip s) = lstrip s.
Proof.
  induction s as [|c s IH]; simpl; [done|].
  destruct (isspace c) eqn:E; [done|]. simpl. by rewrite E.
Qed.

Lemma rstrip_idem s : rstrip (rstrip s) = rstrip s.
Proof. unfold rstrip. by rewrite rev_involutive, lstrip_idem. Qed.

Lemma lstrip_nil_app x y : lstrip x = [] → lstrip (x ++ y) = lstrip y.
Proof.
  induction x as [|c x IH]; simpl; [done|].
  by destruct (isspace c).
Qed.

Lemma lstrip_nil_rev x : lstrip x = [] → lstrip (rev x) = [].
Proof.
  induction x as [|c x IH]; simpl; [done|].
  destruct (isspace c) eqn:E; [|done]. intros Hx.
  rewrite lstrip_nil_app by auto. simpl. by rewrite E.
Qed.

Lemma rstrip_nil_lstrip x : rstrip x = [] → lstrip x = [].
Proof.
  unfold rstrip. intros Hx.
  assert (lstrip (rev x) = []) as Hr.
  { destruct (lstrip (rev x)) as [|c l] eqn:E; [done|].
    simpl in Hx. by destruct (rev l). }
  apply lstrip_nil_rev in Hr. by rewrite rev_involutive in Hr.
Qed.

Lemma rstrip_cons c x :
  rstrip (c :: x) =
    match rstrip x with
    | [] => if isspace c then [] else [c]
    | _ :: _ => c :: rstrip x
    end.
Proof.
  destruct (rstrip x) as [|c' l] eqn:E.
  - unfold rstrip in *. simpl.
    assert (lstrip (rev x) = []) as Hr.
    { destruct (lstrip (rev x)) as [|c0 l0]; [done|].
      simpl in E. by destruct (rev l0). }
    rewrite lstrip_nil_app by done. simpl. by destruct (isspace c).
  - rewrite <- E. apply (rstrip_app_r [c] x). by rewrite E.
Qed.

Lemma lstrip_rstrip s : lstrip (rstrip s) = rstrip (lstrip s).
Proof.
  induction s as [|c s IH]; [done|].
  rewrite rstrip_cons. simpl lstrip at 2.
  destruct (isspace c) eqn:Ec.
  - destruct (rstrip s) as [|c' l] eqn:E.
    + simpl. apply rstrip_nil_lstrip in E. by rewrite E.
    + simpl. rewrite Ec. exact IH.
  - rewrite rstrip_cons. destruct (rstrip s); simpl; by rewrite Ec.
Qed.

Lemma strip_lstrip s : strip (lstrip s) = strip s.
Proof. unfold strip. by rewrite lstrip_idem. Qed.

Lemma strip_rstrip s : strip (rstrip s) = strip s.
Proof. unfold strip. by rewrite lstrip_rstrip, rstrip_idem. Qed.

Lemma elem_of_lstrip c s : c ∈ lstrip s → c ∈ s.
Proof.
  induction s as [|c' s IH]; simpl; [done|].
  destruct (isspace c'); [|done]. intros. right. auto.
Qed.

Lemma elem_of_rstrip c s : c ∈ rstrip s → c ∈ s.
Proof.
  unfold rstrip. rewrite !list_elem_of_In, <- in_rev, <- list_elem_of_In.
  intros H%elem_of_lstrip. apply list_elem_of_In in H. by apply in_rev.
Qed.

(** [split_first] finds the first separator. *)
Lemma split_first_Some c s a b :
  split_first c s = Some (a, b) ↔ s = a ++ c :: b ∧ c ∉ a.
Proof.
  revert a. induction s as [|c' s IH]; intros a; simpl.
  - split; [done|]. intros [E _]. by destruct a.
  - case_decide as Hc.
    + subst. split.
      * intros [= <- <-]. split; [done | apply not_elem_of_nil].
      * intros [E Ha]. destruct a as [|c0 a]; simpl in E.
        -- by injection E as ->.
        -- injection E as -> _. exfalso. apply Ha. left.
    + split.
      * destruct (split_first c s) as [[a' b']|]; [|done].
        intros [= <- <-]. destruct (proj1 (IH a') eq_refl) as [-> Ha].
        split; [done|]. rewrite not_elem_of_cons. done.
      * intros [E Ha]. destruct a as [|c0 a]; simpl in E.
        -- injection E as -> _. done.
        -- injection E as -> ->. apply not_elem_of_cons in Ha as [_ Ha].
           by rewrite (proj2 (IH a) (conj eq_refl Ha)).
Qed.

Lemma split_first_None c s : split_first c s = None ↔ c ∉ s.
Proof.
  induction s as [|c' s IH]; simpl.
  - split; [intros _; apply not_elem_of_nil | done].
  - rewrite not_elem_of_cons. case_decide as Hc.
    + split; [done | intros [? _]; congruence].
    + destruct (split_first c s) as [[a b]|].
      * split; [done|]. intros [_ Hs]. by apply IH in Hs.
      * split; [|done]. intros _. split; [congruence | by apply IH].
Qed.

End StringFacts.

(** ** The order of strings *)

Lemma str_ltb_irrefl s : str_ltb s s = false.
Proof.
  induction s as [|c s IH]; simpl; [done|].
  by rewrite N.ltb_irrefl.
Qed.

Lemma str_ltb_trichotomy s1 s2 :
  str_ltb s1 s2 = true ∨ s1 = s2 ∨ str_ltb s2 s1 = true.
Proof.
  revert s2. induction s1 as [|c1 s1 IH]; intros [|c2 s2]; simpl; auto.
  destruct (N.ltb_spec c1 c2) as [H12|H12]; [by left|].
  destruct (N.ltb_spec c2 c1) as [H21|H21]; [by right; right|].
  assert (c1 = c2) as -> by lia.
  destruct (IH s2) as [?|[->|?]]; auto.
Qed.

Lemma str_ltb_asym s1 s2 : str_ltb s1 s2 = true → str_ltb s2 s1 = false.
Proof.
  revert s2. induction s1 as [|c1 s1 IH]; intros [|c2 s2]; simpl; try done.
  destruct (N.ltb_spec c1 c2) as [H12|H12].
  - intros _. destruct (N.ltb_spec c2 c1); [lia | done].
  - destruct (N.ltb_spec c2 c1) as [H21|H21]; [done|]. apply IH.
Qed.

Lemma str_ltb_trans s1 s2 s3 :
  str_ltb s1 s2 = true → str_ltb s2 s3 = true → str_ltb s1 s3 = true.
Proof.
  revert s2 s3.
  induction s1 as [|c1 s1 IH]; intros [|c2 s2] [|c3 s3]; simpl; try done.
  destruct (N.ltb_spec c1 c2) as [H12|H12];
    destruct (N.ltb_spec c2 c3) as [H23|H23];
    destruct (N.ltb_spec c1 c3) as [H13|H13]; try done; try lia.
  - intros _. destruct (N.ltb_spec c3 c2); [done | lia].
  - destruct (N.ltb_spec c2 c1); [done|]. intros _ _. lia.
  - destruct (N.ltb_spec c2 c1) as [?|?]; [done|].
    destruct (N.ltb_spec c3 c2) as [?|?]; [done|].
    destruct (N.ltb_spec c3 c1) as [?|?]; [lia|]. apply IH.
Qed.

#[global] Instance str_le_total : Total str_le.
Proof.
  intros s1 s2. unfold str_le.
  destruct (str_ltb s2 s1) eqn:E; [|by left].
  right. by apply str_ltb_asym.
Qed.

#[global] Instance str_le_antisymm : AntiSymm (=) str_le.
Proof.
  intros s1 s2. unfold str_le. intros H1 H2.
  destruct (str_ltb_trichotomy s1 s2) as [?|[?|?]]; congruence.
Qed.

#[global] Instance str_le_trans : Transitive str_le.
Proof.
  intros s1 s2 s3. unfold str_le. intros H21 H32.
  destruct (str_ltb s3 s1) eqn:E; [|done].
  destruct (str_ltb_trichotomy s1 s2) as [H|[->|H]]; [| congruence..].
  by rewrite (str_ltb_trans s3 s1 s2) in H32.
Qed.

Lemma str_lt_le_ne s1 s2 : str_lt s1 s2 ↔ str_le s1 s2 ∧ s1 ≠ s2.
Proof.
  unfold str_lt, str_le. split.
  - intros H. split; [by apply str_ltb_asym|].
    intros ->. by rewrite str_ltb_irrefl in H.
  - intros [H Hne].
    destruct (str_ltb_trichotomy s1 s2) as [?|[?|?]]; congruence.
Qed.

(** [sorted] gives the one ascending arrangement of its argument. *)
Lemma sorted_Sorted l : Sorted str_le (sorted l).
Proof. apply Sorted_merge_sort, _. Qed.

Lemma sorted_Permutation l : sorted l ≡ₚ l.
Proof. apply merge_sort_Permutation. Qed.

Lemma sorted_unique l1 l2 : l1 ≡ₚ l2 → sorted l1 = sorted l2.
Proof.
  intros Hp. apply (Sorted_unique str_le); try apply sorted_Sorted.
  by rewrite !sorted_Permutation.
Qed.

(** Sorted without repetition is strictly ascending. *)
Lemma sorted_strict l : NoDup l → StronglySorted str_lt (sorted l).
Proof.
  intros Hnd.
  assert (NoDup (sorted l)) as Hnd' by by rewrite sorted_Permutation.
  pose proof (Sorted_StronglySorted _ _ (sorted_Sorted l)) as Hs.
  induction Hs as [|x l' Hs IH Hall]; [constructor|].
  apply NoDup_cons in Hnd' as [Hx Hnd'].
  constructor; [by apply IH|].
  rewrite List.Forall_forall in *. intros y Hy.
  apply str_lt_le_ne. split; [by apply Hall|].
  intros ->. by apply Hx, list_elem_of_In.
Qed.

(** ** The annotation index: [load_annotations] *)

Module AnnotatorFacts.
Import Annotator.








Lemma for_each_append_records doc (l : list (Z * str)) st :
  for_each l (λ '(img_id, file_name),
    let annotations := default [] (dict_get img_id (anns_by_img doc)) in
    modify (λ st, set_image_info
      (image_info st ++ [{| rec_id := img_id;
                            rec_file_name := file_name;
                            rec_annotations := annotations |}]) st)) st
  = (Ok (), set_image_info (image_info st ++ (record_of doc <$> l)) st).
Proof.
  revert st. induction l as [|[i n] l IH]; intros st.
  - destruct st. unfold set_image_info. simpl. by rewrite app_nil_r.
  - simpl. unfold mbind, M_bind. unfold modify at 1. rewrite IH.
    destruct st. unfold set_image_info. simpl. by rewrite <- app_assoc.
Qed.

Lemma load_annotations_run doc st :
  load_annotations doc st =
    (Ok (), set_image_info
              (image_info st ++ (record_of doc <$> img_id_to_name doc))
              (set_annot_data (Some doc) st)).
Proof.
  unfold load_annotations, mbind, M_bind. unfold modify at 1.
  unfold dict_items. by rewrite for_each_append_records.
Qed.




(** Outside valid documents: two images with one id give one record, under
    the file name of the second; an annotation that names no image is in no
    record. *)
Example load_annotations_duplicate_id :
  image_info (load_annotations duplicate_doc (blank ∅)).2 =
    [{| rec_id := 7; rec_file_name := lit "b.jpg";
        rec_annotations := [sample_ann 1 7] |}].
Proof. reflexivity. Qed.

Example load_annotations_orphan :
  image_info (load_annotations orphan_doc (blank ∅)).2 =
    [{| rec_id := 7; rec_file_name := lit "a.jpg";
        rec_annotations := [sample_ann 1 7] |}].
Proof. reflexivity. Qed.

(** ** Properties kept by a method *)

Lemma preserves_ret {A} I (a : A) : preserves I (mret a).
Proof. by intros st H. Qed.

Lemma preserves_get I : preserves I get.
Proof. by intros st H. Qed.

Lemma preserves_raise {A} I e : preserves I (raise e : M A).
Proof. by intros st H. Qed.

Lemma preserves_modify I f : (∀ st, I st → I (f st)) → preserves I (modify f).
Proof. intros Hf st H. by apply Hf. Qed.

Lemma preserves_bind {A B} I (m : M A) (f : A → M B) :
  preserves I m → (∀ a, preserves I (f a)) → preserves I (m ≫= f).
Proof.
  intros Hm Hf st H. unfold mbind, M_bind.
  specialize (Hm st H). destruct (m st) as [[a|e] st']; simpl in *.
  - by apply Hf.
  - done.
Qed.

Lemma preserves_try_except I body handler :
  preserves I body → (∀ e, preserves I (handler e)) →
  preserves I (try_except body handler).
Proof.
  intros Hb Hh st H. unfold try_except.
  specialize (Hb st H). destruct (body st) as [[a|e] st']; simpl in *.
  - done.
  - by apply Hh.
Qed.

Lemma preserves_for_each {A} I (l : list A) f :
  (∀ x, preserves I (f x)) → preserves I (for_each l f).
Proof.
  intros Hf. induction l as [|x l IH]; simpl.
  - apply preserves_ret.
  - apply preserves_bind; [apply Hf | intros _; apply IH].
Qed.

(** Takes a method apart along its binds, loops and branches; what is left
    are the assignments to fields. *)
Ltac preserve_step :=
  lazymatch goal with
  | |- preserves _ (mret _) => apply preserves_ret
  | |- preserves _ get => apply preserves_get
  | |- preserves _ (raise _) => apply preserves_raise
  | |- preserves _ (_ ≫= _) => apply preserves_bind; [|intros ?]
  | |- preserves _ (try_except _ _) => apply preserves_try_except; [|intros ?]
  | |- preserves _ (for_each _ _) => apply preserves_for_each; intros ?
  | |- preserves _ (modify _) => apply preserves_modify; intros ? ?
  | |- preserves _ (print _) => apply preserves_modify; intros ? ?
  | |- preserves _ (if ?b then _ else _) => destruct b
  | |- preserves _ (match ?x with _ => _ end) => destruct x
  | |- preserves _ (let '(_, _) := ?x in _) => destruct x
  end.

Lemma preserves_set_check I box v :
  (∀ st v, I st → I (set_sparse_check v st)) →
  (∀ st v, I st → I (set_dense_check v st)) →
  preserves I (modify (set_check box v)).
Proof.
  intros Hs Hd. apply preserves_modify. intros st H.
  destruct box; simpl; auto.
Qed.

Lemma preserves_setChecked_upto I n box v :
  (∀ st v, I st → I (set_sparse_check v st)) →
  (∀ st v, I st → I (set_dense_check v st)) →
  preserves I (setChecked_upto n box v).
Proof.
  intros Hs Hd. revert box v.
  induction n as [|n IH]; intros box v; simpl.
  - repeat first [apply preserves_set_check; assumption | preserve_step].
  - repeat first [apply preserves_set_check; assumption | apply IH
                 | preserve_step].
Qed.

Lemma preserves_setChecked I box v :
  of_data I → preserves I (setChecked box v).
Proof.
  intros HI. apply preserves_setChecked_upto; intros; by apply HI.
Qed.

Section WithImages.
Variable loadable : str → bool.

Lemma preserves_show_image I : of_data I → preserves I (show_image loadable).
Proof.
  intros HI. unfold show_image.
  repeat first [apply preserves_setChecked; assumption | preserve_step];
    by apply HI.
Qed.

End WithImages.

(** ** The cursor: [show_prev_image] and [show_next_image] *)

Lemma run_bind_ok {A B} (m : M A) (f : A → M B) st a :
  (m st).1 = Ok a → (m ≫= f) st = f a (m st).2.
Proof.
  unfold mbind, M_bind. destruct (m st) as [r st']. simpl. by intros ->.
Qed.

Lemma run_bind_raise {A B} (m : M A) (f : A → M B) st e :
  (m st).1 = Raise e → (m ≫= f) st = (Raise e, (m st).2).
Proof.
  unfold mbind, M_bind. destruct (m st) as [r st']. simpl. by intros ->.
Qed.

Lemma setChecked_upto_returns n box v st :
  (setChecked_upto n box v st).1 = Ok ().
Proof.
  revert box v st. induction n as [|n IH]; intros box v st; simpl;
    unfold mbind, M_bind, get, modify; simpl.
  - by case_decide.
  - case_decide; [done|].
    destruct (isChecked box (set_check box v st)); [apply IH | done].
Qed.

Lemma setChecked_returns box v st : (setChecked box v st).1 = Ok ().
Proof. apply setChecked_upto_returns. Qed.

Lemma py_index_in_range {A} (l : list A) i :
  0 ≤ i < len l → is_Some (py_index l i).
Proof.
  intros Hi. unfold py_index. rewrite bool_decide_true by done.
  apply lookup_lt_is_Some. unfold len in Hi. lia.
Qed.

Section Cursor.
Variable loadable : str → bool.

(** [show_image] returns: the index it uses has passed its test. *)
Lemma show_image_returns st : (show_image loadable st).1 = Ok ().
Proof.
  unfold show_image, mbind, M_bind, get. simpl.
  case_bool_decide as Hi; [done|].
  destruct (py_index_in_range (image_info st) (current_index st)) as [r ->];
    [lia|].
  destruct (loadable _); simpl; [|done].
  destruct (dict_get _ _).
  - rewrite (surjective_pairing (setChecked sparse_box _ st)).
    rewrite setChecked_returns. apply setChecked_returns.
  - rewrite (surjective_pairing (setChecked sparse_box _ st)).
    rewrite setChecked_returns. apply setChecked_returns.
Qed.

Lemma show_image_cursor st :
  image_info (show_image loadable st).2 = image_info st ∧
  current_index (show_image loadable st).2 = current_index st.
Proof.
  apply (preserves_show_image loadable
           (λ s, image_info s = image_info st ∧
                 current_index s = current_index st)); [|done].
  intros s Hs. by destruct s.
Qed.

Lemma step_cursor m st :
  (step loadable m st).1 = Ok () ∧
  image_info (step loadable m st).2 = image_info st ∧
  current_index (step loadable m st).2 =
    moved m (len (image_info st)) (current_index st).
Proof.
  destruct m; unfold step, show_next_image, show_prev_image;
    rewrite (run_bind_ok _ _ _ ()) by done; simpl;
    (split; [apply show_image_returns|]);
    match goal with |- context [show_image _ ?s] =>
      destruct (show_image_cursor s) as [-> ->] end;
    by destruct st.
Qed.

Lemma navigate_cons m ms st :
  navigate loadable (m :: ms) st = navigate loadable ms (step loadable m st).2.
Proof.
  unfold navigate. simpl.
  apply (run_bind_ok (step loadable m)
           (λ _, for_each ms (step loadable)) st ()), step_cursor.
Qed.

Lemma navigate_app ms1 ms2 st :
  (navigate loadable ms1 st).1 = Ok () ∧
  navigate loadable (ms1 ++ ms2) st =
    navigate loadable ms2 (navigate loadable ms1 st).2.
Proof.
  revert st. induction ms1 as [|m ms1 IH]; intros st.
  - done.
  - simpl. rewrite !navigate_cons. apply IH.
Qed.

Lemma navigate_in_range ms st :
  0 ≤ current_index st ≤ len (image_info st) - 1 →
  image_info (navigate loadable ms st).2 = image_info st ∧
  0 ≤ current_index (navigate loadable ms st).2 ≤ len (image_info st) - 1.
Proof.
  revert st. induction ms as [|m ms IH]; intros st Hc; [done|].
  rewrite navigate_cons.
  destruct (step_cursor m st) as (_ & Hi & Hm).
  destruct (IH (step loadable m st).2) as [-> Hr].
  - rewrite Hi, Hm. destruct m; simpl; lia.
  - by rewrite Hi in *.
Qed.

Lemma navigate_replicate m k st :
  0 ≤ current_index st ≤ len (image_info st) - 1 →
  image_info (navigate loadable (replicate k m) st).2 = image_info st ∧
  current_index (navigate loadable (replicate k m) st).2 =
    match m with
    | advance => Z.min (len (image_info st) - 1) (current_index st + Z.of_nat k)
    | retreat => Z.max 0 (current_index st - Z.of_nat k)
    end.
Proof.
  revert st. induction k as [|k IH]; intros st Hc.
  - simpl. split; [done|]. destruct m; lia.
  - simpl replicate. rewrite navigate_cons.
    destruct (step_cursor m st) as (_ & Hi & Hm).
    destruct (IH (step loadable m st).2) as [-> ->].
    + rewrite Hi, Hm. destruct m; simpl; lia.
    + rewrite Hi, Hm. split; [done|]. destruct m; simpl; lia.
Qed.

(** C5. On a sequence of [N] records with the cursor in [[0, N-1]], every
    sequence of [advance] and [retreat] calls returns without raising,
    leaves the sequence as it is and the cursor in [[0, N-1]]; a call at
    a boundary leaves the cursor on it (no error, no wraparound); and from
    the last index, [N] calls of [retreat] followed by [N] calls of
    [advance] bring the cursor back to the last index. *)
Theorem cursor_clamped (st : annotator) :
  let N := len (image_info st) in
  0 ≤ current_index st ≤ N - 1 →
  (∀ ms, (navigate loadable ms st).1 = Ok () ∧
         image_info (navigate loadable ms st).2 = image_info st ∧
         0 ≤ current_index (navigate loadable ms st).2 ≤ N - 1) ∧
  (current_index st = 0 →
     (show_prev_image loadable st).1 = Ok () ∧
     current_index (show_prev_image loadable st).2 = 0) ∧
  (current_index st = N - 1 →
     (show_next_image loadable st).1 = Ok () ∧
     current_index (show_next_image loadable st).2 = N - 1 ∧
     current_index
       (navigate loadable (replicate (length (image_info st)) retreat ++
                           replicate (length (image_info st)) advance) st).2
       = N - 1).
Proof.
  intros N Hc. split; [|split].
  - intros ms. split; [|by apply navigate_in_range].
    apply (navigate_app ms [] st).
  - intros H0. destruct (step_cursor retreat st) as (Hok & _ & Hm).
    split; [done|]. simpl in Hm. rewrite Hm. lia.
  - intros HN. destruct (step_cursor advance st) as (Hok & _ & Hm).
    split; [done|]. split; [simpl in Hm; rewrite Hm; fold N; lia|].
    destruct (navigate_app (replicate (length (image_info st)) retreat)
                (replicate (length (image_info st)) advance) st) as [_ ->].
    destruct (navigate_replicate retreat (length (image_info st)) st)
      as [Hi Hr]; [done|].
    destruct (navigate_replicate advance (length (image_info st))
                (navigate loadable
                   (replicate (length (image_info st)) retreat) st).2)
      as [_ ->].
    + rewrite Hi, Hr. fold N. unfold len in *. lia.
    + rewrite Hi, Hr. fold N. unfold N, len in *. lia.
Qed.

End Cursor.

Lemma cursor_clamped_witness :
  let st := run (λ _, true) [KeyRight] (startup (λ _, true) sample_doc ∅) in
  0 ≤ current_index st ≤ len (image_info st) - 1 ∧
  current_index st = len (image_info st) - 1 ∧
  current_index
    (navigate (λ _, true)
       (replicate (length (image_info st)) retreat ++
        replicate (length (image_info st)) advance) st).2
    = len (image_info st) - 1.
Proof.
  intros st.
  assert (0 ≤ current_index st ≤ len (image_info st) - 1) as Hc
    by (vm_compute; split; discriminate).
  assert (current_index st = len (image_info st) - 1) as Hl by reflexivity.
  split; [exact Hc|]. split; [exact Hl|].
  destruct (cursor_clamped (λ _, true) st Hc) as (_ & _ & H).
  destruct (H Hl) as (_ & _ & Hn). exact Hn.
Defined.

(** With no record there is no interval to stay in: the cursor starts at 0
    and the right key moves it to -1. *)
Example cursor_without_records :
  let st := startup (λ _, true) {| images := []; annotations := [] |} ∅ in
  current_index st = 0 ∧ len (image_info st) = 0 ∧
  current_index (run (λ _, true) [KeyRight] st) = -1.
Proof. by vm_compute. Qed.

(** ** The two labels: [single_check], [quick_classify], [save_classification] *)

(** What a call of [setChecked] leaves: the box has the value asked for;
    the other box is cleared when the call checks a box that was not
    checked, and is left alone in every other case; nothing else moves. *)
Lemma setChecked_effect box v st :
  let st' := (setChecked box v st).2 in
  isChecked box st' = v ∧
  isChecked (other box) st' =
    (if decide (isChecked box st = v) then isChecked (other box) st
     else if v then false else isChecked (other box) st) ∧
  image_info st' = image_info st ∧
  current_index st' = current_index st ∧
  classifications st' = classifications st ∧
  files st' = files st.
Proof.
  destruct st as [? ? ? ? s d ? ? ? ?].
  by destruct box, v, s, d.
Qed.

Lemma setChecked_exclusive box v : preserves exclusive (setChecked box v).
Proof.
  intros st. destruct st as [? ? ? ? s d ? ? ? ?].
  unfold exclusive. destruct box, v, s, d; simpl; tauto.
Qed.

(** More levels of slots change nothing: two are enough. *)
Lemma setChecked_upto_enough n box v st :
  setChecked_upto (2 + n) box v st = setChecked box v st.
Proof.
  destruct st as [? ? ? ? s d ? ? ? ?].
  destruct n as [|[|n]]; by destruct box, v, s, d.
Qed.

Lemma labelled_setChecked box v : preserves labelled (setChecked box v).
Proof.
  intros st [He Hw]. split.
  - by apply setChecked_exclusive.
  - destruct (setChecked_effect box v st) as (_ & _ & _ & _ & -> & _). done.
Qed.

Ltac labelled_field :=
  match goal with
  | H : labelled ?st |- labelled _ =>
      destruct st; destruct H as [? ?]; split;
      [assumption | simpl in *; auto using dict_set_wf, dict_del_wf]
  end.

Section Labels.
Variable loadable : str → bool.

Ltac labelled_method :=
  repeat first [apply labelled_setChecked | preserve_step]; try labelled_field.

Lemma labelled_show_image : preserves labelled (show_image loadable).
Proof. unfold show_image. labelled_method. Qed.

Lemma labelled_update_progress : preserves labelled update_progress.
Proof. unfold update_progress. labelled_method. Qed.

Lemma labelled_save_classification :
  preserves labelled save_classification.
Proof.
  unfold save_classification.
  repeat first [apply labelled_update_progress | apply labelled_setChecked
               | preserve_step]; try labelled_field.
Qed.

Lemma labelled_handle ev : preserves labelled (handle loadable ev).
Proof.
  destruct ev; simpl;
    unfold show_prev_image, show_next_image, quick_classify, save_and_next,
      show_next_image, import_progress, export_results, import_line;
    repeat first [apply labelled_show_image | apply labelled_update_progress
                 | apply labelled_save_classification
                 | apply labelled_setChecked | preserve_step];
    try labelled_field.
Qed.


Lemma labelled_init doc : preserves labelled (init loadable doc).
Proof.
  unfold init, load_annotations, init_ui.
  repeat first [apply labelled_show_image | apply labelled_update_progress
               | preserve_step];
    try labelled_field.
  all: destruct st, H; split; unfold exclusive; simpl in *; auto.
  all: intros [? ?]; discriminate.
Qed.

Lemma labelled_startup doc disk : labelled (startup loadable doc disk).
Proof.
  apply labelled_init. split.
  - unfold exclusive. simpl. intros [? ?]. discriminate.
  - apply NoDup_nil_2.
Qed.

Lemma labelled_run evs st : labelled st → labelled (run loadable evs st).
Proof.
  revert st. induction evs as [|ev evs IH]; intros st H; [done|].
  simpl. apply IH. by apply labelled_handle.
Qed.

End Labels.

Lemma setChecked_twice_run b1 v1 b2 v2 st :
  (setChecked b1 v1;; setChecked b2 v2) st =
    (Ok (), (setChecked b2 v2 (setChecked b1 v1 st).2).2).
Proof.
  rewrite (run_bind_ok (setChecked b1 v1) (λ _, setChecked b2 v2) st ())
    by apply setChecked_returns.
  apply injective_projections; [apply setChecked_returns | done].
Qed.

Lemma setChecked_twice_effect v st :
  let st' := (setChecked dense_box (negb v)
                (setChecked sparse_box v st).2).2 in
  sparse_check st' = v ∧ dense_check st' = negb v ∧
  image_info st' = image_info st ∧
  current_index st' = current_index st ∧
  classifications st' = classifications st.
Proof.
  destruct st as [? ? ? ? s d ? ? ? ?]. by destruct v, s, d.
Qed.

(** What [save_classification] does when there is a current record. *)
Lemma save_classification_effect st r :
  py_index (image_info st) (current_index st) = Some r →
  let st' := (save_classification st).2 in
  let file_name := rec_file_name r in
  (save_classification st).1 = Ok () ∧
  sparse_check st' = sparse_check st ∧
  dense_check st' = dense_check st ∧
  image_info st' = image_info st ∧
  current_index st' = current_index st ∧
  classifications st' =
    (if sparse_check st then dict_set file_name SPARSE (classifications st)
     else if dense_check st then dict_set file_name DENSE (classifications st)
     else if dict_contains file_name (classifications st)
          then dict_del file_name (classifications st)
          else classifications st) ∧
  progress_maximum st' = len (image_info st') ∧
  progress_value st' = dict_len (classifications st').
Proof.
  intros Hr. unfold save_classification, mbind, M_bind, get. simpl.
  rewrite Hr. destruct st as [? ? ? cls s d ? ? ? ?]. simpl in *.
  destruct s; [done|]. destruct d; [done|].
  by destruct (dict_contains (rec_file_name r) cls).
Qed.

(** What a label key does when there is a current record. *)
Lemma quick_classify_effect label st r :
  py_index (image_info st) (current_index st) = Some r →
  label = SPARSE ∨ label = DENSE →
  let st' := (quick_classify label st).2 in
  (quick_classify label st).1 = Ok () ∧
  sparse_check st' = bool_decide (label = SPARSE) ∧
  dense_check st' = bool_decide (label = DENSE) ∧
  image_info st' = image_info st ∧
  current_index st' = current_index st ∧
  classifications st' = dict_set (rec_file_name r) label (classifications st).
Proof.
  intros Hr Hl. unfold quick_classify.
  assert (∀ v : bool, (if v then SPARSE else DENSE) = label →
    let st' := (((setChecked sparse_box v;; setChecked dense_box (negb v));;
                 save_classification) st).2 in
    (((setChecked sparse_box v;; setChecked dense_box (negb v));;
      save_classification) st).1 = Ok () ∧
    sparse_check st' = v ∧ dense_check st' = negb v ∧
    image_info st' = image_info st ∧
    current_index st' = current_index st ∧
    classifications st' =
      dict_set (rec_file_name r) label (classifications st)) as Hv.
  { intros v Hvl.
    rewrite (run_bind_ok
               (setChecked sparse_box v;; setChecked dense_box (negb v))
               (λ _, save_classification) st ())
      by by rewrite setChecked_twice_run.
    rewrite setChecked_twice_run. simpl.
    destruct (setChecked_twice_effect v st) as (Hs & Hd & Hi & Hc & Hm).
    destruct (save_classification_effect
                (setChecked dense_box (negb v)
                   (setChecked sparse_box v st).2).2 r)
      as (Hok & Hs' & Hd' & Hi' & Hc' & Hm' & _); [by rewrite Hi, Hc|].
    rewrite Hok, Hs', Hd', Hi', Hc', Hm', Hs, Hd, Hi, Hc, Hm.
    repeat split. destruct v; simpl; by subst. }
  destruct Hl as [-> | ->].
  - rewrite decide_True by done. apply (Hv true). done.
  - rewrite decide_False by done. apply (Hv false). done.
Qed.

(** C4. In every state the window reaches from its start, whatever the
    user does, at most one of the two labels is active and the
    classification map holds a file name once, so with one label;
    checking a box leaves it checked and the other one unchecked; and with a
    current record, the sparse key followed by the dense key leaves, after
    each key, exactly the label of that key active and recorded for the
    record's file name. *)
Theorem labels_exclusive (loadable : str → bool) (doc : CocoDocument)
    (disk : gmap str file) (evs : list event) :
  let st := run loadable evs (startup loadable doc disk) in
  exclusive st ∧
  dict_wf (classifications st) ∧
  (∀ name l1 l2, (name, l1) ∈ classifications st →
                 (name, l2) ∈ classifications st → l1 = l2) ∧
  (∀ box, let st' := (setChecked box true st).2 in
          isChecked box st' = true ∧ isChecked (other box) st' = false) ∧
  (∀ r, py_index (image_info st) (current_index st) = Some r →
     let st1 := (quick_classify SPARSE st).2 in
     let st2 := (quick_classify DENSE st1).2 in
     (quick_classify SPARSE st).1 = Ok () ∧
     sparse_check st1 = true ∧ dense_check st1 = false ∧
     dict_get (rec_file_name r) (classifications st1) = Some SPARSE ∧
     (quick_classify DENSE st1).1 = Ok () ∧
     sparse_check st2 = false ∧ dense_check st2 = true ∧
     dict_get (rec_file_name r) (classifications st2) = Some DENSE).
Proof.
  intros st.
  assert (labelled st) as [Hex Hwf]
    by apply labelled_run, labelled_startup.
  split; [done|]. split; [done|]. split; [|split].
  - intros name l1 l2 H1 H2.
    apply (dict_get_Some_wf _ _ _ Hwf) in H1, H2. congruence.
  - intros box st'.
    destruct (setChecked_effect box true st) as (Hb & Ho & _).
    split; [done|]. fold st' in Ho. rewrite Ho.
    case_decide as Hc; [|done].
    unfold exclusive in Hex. destruct box; simpl in *;
      destruct (sparse_check st), (dense_check st); tauto.
  - intros r Hr st1 st2.
    destruct (quick_classify_effect SPARSE st r Hr)
      as (Hok1 & Hs1 & Hd1 & Hi1 & Hc1 & Hm1); [by left|].
    destruct (quick_classify_effect DENSE st1 r)
      as (Hok2 & Hs2 & Hd2 & Hi2 & Hc2 & Hm2);
      [by unfold st1; rewrite Hi1, Hc1 | by right |].
    fold st1 in Hs1, Hd1, Hm1. fold st2 in Hs2, Hd2, Hm2.
    repeat split; try done.
    + rewrite Hm1, dict_get_set. by rewrite decide_True.
    + rewrite Hm2, dict_get_set. by rewrite decide_True.
Qed.

Lemma labels_exclusive_witness :
  let st := run (λ _, true) [KeyRight] (startup (λ _, true) sample_doc ∅) in
  let r := {| rec_id := 3; rec_file_name := lit "b.jpg";
              rec_annotations := annotations sample_doc |} in
  py_index (image_info st) (current_index st) = Some r ∧
  dense_check (quick_classify DENSE (quick_classify SPARSE st).2).2 = true ∧
  sparse_check (quick_classify DENSE (quick_classify SPARSE st).2).2 = false.
Proof.
  intros st r.
  assert (py_index (image_info st) (current_index st) = Some r) as Hr
    by reflexivity.
  split; [exact Hr|].
  destruct (labels_exclusive (λ _, true) sample_doc ∅ [KeyRight])
    as (_ & _ & _ & _ & H).
  destruct (H r Hr) as (_ & _ & _ & _ & _ & Hs & Hd & _).
  split; [exact Hd | exact Hs].
Defined.

(** ** The progress file: [import_progress] and [export_results] *)

Lemma elem_of_lstrip_nonspace c s :
  isspace c = false → c ∈ s → c ∈ lstrip s.
Proof.
  intros Hc. induction s as [|c' s IH]; simpl; [done|].
  destruct (isspace c') eqn:E; [|done].
  intros [->|Hin]%elem_of_cons; [congruence | auto].
Qed.

Lemma elem_of_rstrip_nonspace c s :
  isspace c = false → c ∈ s → c ∈ rstrip s.
Proof.
  intros Hc Hin. unfold rstrip.
  apply list_elem_of_In, in_rev. rewrite rev_involutive.
  apply list_elem_of_In, elem_of_lstrip_nonspace; [done|].
  by apply list_elem_of_In, in_rev, list_elem_of_In in Hin.
Qed.

(** A line without [:] is skipped. *)
Lemma merge_line_none line d :
  split_first COLON line = None → merge_line line d = Ok d.
Proof.
  intros H%split_first_None. unfold merge_line, str_contains.
  by rewrite bool_decide_false.
Qed.

(** A line with one [:] is split there and both parts are trimmed. *)
Lemma merge_line_one line a b d :
  split_first COLON line = Some (a, b) → COLON ∉ b →
  merge_line line d = Ok (dict_set (strip a) (strip b) d).
Proof.
  intros [-> Ha]%split_first_Some Hb. unfold merge_line, str_contains.
  rewrite bool_decide_true by (apply elem_of_app; right; left).
  rewrite strip_mid by done.
  rewrite split_app_sep by (intros ?%elem_of_lstrip; done).
  rewrite split_no_sep by (intros ?%elem_of_rstrip; done).
  by rewrite strip_lstrip, strip_rstrip.
Qed.

(** A line with more than one [:] raises: two names do not take three
    pieces. *)
Lemma merge_line_more line a b d :
  split_first COLON line = Some (a, b) → COLON ∈ b →
  merge_line line d = Raise ValueError.
Proof.
  intros [-> Ha]%split_first_Some Hb. unfold merge_line, str_contains.
  rewrite bool_decide_true by (apply elem_of_app; right; left).
  rewrite strip_mid by done.
  rewrite split_app_sep by (intros ?%elem_of_lstrip; done).
  destruct (split_sep_two COLON (rstrip b)) as (p & q & r & ->); [|done].
  by apply elem_of_rstrip_nonspace.
Qed.

(** The loop over the lines merges them one by one into the live map. *)
Lemma for_each_import_line lines st :
  for_each lines import_line st =
    (match (merged lines (classifications st)).2 with
     | None => Ok ()
     | Some e => Raise e
     end,
     set_classifications (merged lines (classifications st)).1 st).
Proof.
  revert st. induction lines as [|line lines IH]; intros st.
  - by destruct st.
  - cbn [for_each merged]. unfold mbind, M_bind.
    unfold import_line at 1, merge_line at 1 2.
    destruct (str_contains COLON line).
    + destruct (split COLON (strip line)) as [|p [|q [|? ?]]];
        try by destruct st.
      unfold modify. rewrite IH. by destruct st.
    + cbn. rewrite IH. by destruct st.
Qed.

Section Progress.
Variable loadable : str → bool.

Lemma show_image_fields st :
  classifications (show_image loadable st).2 = classifications st ∧
  progress_value (show_image loadable st).2 = progress_value st ∧
  files (show_image loadable st).2 = files st.
Proof.
  apply (preserves_show_image loadable
           (λ s, classifications s = classifications st ∧
                 progress_value s = progress_value st ∧
                 files s = files st)); [|done].
  intros s Hs. by destruct s.
Qed.

(** The import of a file that cannot be opened. *)
Lemma import_progress_missing (file_path : str) st :
  file_path ≠ [] → files st !! file_path = None →
  import_progress loadable file_path st =
    (Ok (), set_console (console st ++ [ImportFailed FileNotFoundError]) st).
Proof.
  intros Hp Hf. unfold import_progress. rewrite decide_False by done.
  unfold try_except, mbind, M_bind, get. cbn beta iota. by rewrite Hf.
Qed.

(** The import of a file that opens. *)
Lemma import_progress_run (file_path : str) st f :
  file_path ≠ [] → files st !! file_path = Some f →
  import_progress loadable file_path st =
    match import_outcome f (classifications st) with
    | (d, Some e) =>
        (Ok (), set_console (console st ++ [ImportFailed e])
                            (set_classifications d st))
    | (d, None) =>
        show_image loadable
          (set_progress (len (image_info st)) (dict_len d)
                        (set_classifications d st))
    end.
Proof.
  intros Hp Hf. unfold import_progress. rewrite decide_False by done.
  unfold try_except, mbind, M_bind, get. cbn beta iota. rewrite Hf.
  unfold import_outcome. destruct (read f) as [lines ending].
  rewrite for_each_import_line.
  destruct (merged lines (classifications st)) as [d [e|]]; simpl.
  - by destruct st.
  - destruct ending as [e|]; simpl; [by destruct st|].
    unfold update_progress, mbind, M_bind, get, modify. simpl.
    match goal with |- context [show_image _ ?s] =>
      pose proof (show_image_returns loadable s) as Hok;
      replace s with
        (set_progress (len (image_info st)) (dict_len d)
                      (set_classifications d st)) in * by (by destruct st)
    end.
    destruct (show_image loadable _) as [[[]|e] s']; [done | discriminate].
Qed.

Lemma import_progress_file (file_path : str) st f :
  file_path ≠ [] → files st !! file_path = Some f →
  (import_progress loadable file_path st).1 = Ok () ∧
  classifications (import_progress loadable file_path st).2 =
    (import_outcome f (classifications st)).1 ∧
  match (import_outcome f (classifications st)).2 with
  | Some e =>
      console (import_progress loadable file_path st).2 =
        console st ++ [ImportFailed e] ∧
      progress_value (import_progress loadable file_path st).2 =
        progress_value st
  | None =>
      progress_value (import_progress loadable file_path st).2 =
        dict_len (classifications (import_progress loadable file_path st).2)
  end.
Proof.
  intros Hp Hf. rewrite (import_progress_run _ _ f) by done.
  destruct (import_outcome f (classifications st)) as [d [e|]]; simpl.
  - by destruct st.
  - match goal with |- context [show_image _ ?s] =>
      destruct (show_image_fields s) as (-> & -> & _);
      rewrite (show_image_returns loadable s) end.
    by destruct st.
Qed.

End Progress.

(** The window when the event loop starts. *)
Lemma startup_fields loadable doc disk :
  classifications (startup loadable doc disk) = [] ∧
  image_info (startup loadable doc disk) =
    record_of doc <$> img_id_to_name doc ∧
  files (startup loadable doc disk) = disk ∧
  current_index (startup loadable doc disk) = 0.
Proof.
  unfold startup, init.
  rewrite (run_bind_ok (load_annotations doc) _ _ ())
    by by rewrite load_annotations_run.
  rewrite load_annotations_run.
  apply (preserves_bind
           (λ s, classifications s = [] ∧
                 image_info s = record_of doc <$> img_id_to_name doc ∧
                 files s = disk ∧ current_index s = 0)).
  - unfold init_ui, update_progress.
    repeat preserve_step; by destruct st.
  - intros _. apply preserves_show_image. intros s Hs. by destruct s.
  - done.
Qed.

(** On a line with at most one [:] the import does what the specification
    says of a line. *)
Lemma merge_line_spec line d :
  (∀ a b, split_first COLON line = Some (a, b) → COLON ∉ b) →
  merge_line line d = Ok (spec_import_line line d).
Proof.
  intros H. unfold spec_import_line.
  destruct (split_first COLON line) as [[a b]|] eqn:E.
  - apply merge_line_one; [done | by apply (H a b)].
  - by apply merge_line_none.
Qed.

(** C2, amended. The import reads the lines in order and merges each one
    into the live map as it is read: a line without [:] is skipped and the
    loop goes on; a line with exactly one [:] is split there, both parts
    are trimmed, and the entry is set. The import itself never raises. When
    the dialog is cancelled (the path is empty) the window is exactly as
    before. When the file cannot be opened the window is as before, but for
    the message printed. When the file opens, the map after the import is
    the map after the loop: if the loop or the reader raised part-way, the
    failure is printed, the progress bar is not updated and the entries of
    the lines read before stay merged; otherwise the progress bar shows the
    size of the map. *)
Theorem import_progress_merges (loadable : str → bool) (file_path : str)
    (st : annotator) :
  (∀ line d, split_first COLON line = None → merge_line line d = Ok d) ∧
  (∀ line a b d, split_first COLON line = Some (a, b) → COLON ∉ b →
     merge_line line d = Ok (dict_set (strip a) (strip b) d)) ∧
  (∀ line d, (∀ a b, split_first COLON line = Some (a, b) → COLON ∉ b) →
     merge_line line d = Ok (spec_import_line line d)) ∧
  (import_progress loadable file_path st).1 = Ok () ∧
  import_progress loadable [] st = (Ok (), st) ∧
  (file_path ≠ [] →
   match files st !! file_path with
   | None =>
       (import_progress loadable file_path st).2 =
         set_console (console st ++ [ImportFailed FileNotFoundError]) st
   | Some f =>
       classifications (import_progress loadable file_path st).2 =
         (import_outcome f (classifications st)).1 ∧
       match (import_outcome f (classifications st)).2 with
       | Some e =>
           console (import_progress loadable file_path st).2 =
             console st ++ [ImportFailed e] ∧
           progress_value (import_progress loadable file_path st).2 =
             progress_value st
       | None =>
           progress_value (import_progress loadable file_path st).2 =
             dict_len (classifications
                         (import_progress loadable file_path st).2)
       end
   end).
Proof.
  assert (import_progress loadable [] st = (Ok (), st)) as Hcancel
    by (unfold import_progress; by rewrite decide_True).
  split; [apply merge_line_none|]. split; [apply merge_line_one|].
  split; [apply merge_line_spec|]. split; [|split; [exact Hcancel|]].
  - destruct (decide (file_path = [])) as [->|Hp]; [by rewrite Hcancel|].
    destruct (files st !! file_path) as [f|] eqn:Hf.
    + by destruct (import_progress_file loadable file_path st f Hp Hf)
        as (Hok & _).
    + by rewrite import_progress_missing.
  - intros Hp. destruct (files st !! file_path) as [f|] eqn:Hf.
    + destruct (import_progress_file loadable file_path st f Hp Hf)
        as (Hok & Hc & Hrest).
      done.
    + by rewrite import_progress_missing.
Qed.

Lemma import_progress_merges_witness :
  let st := startup (λ _, true) sample_doc {[progress_path := cut_file]} in
  let st' := (import_progress (λ _, true) progress_path st).2 in
  progress_path ≠ [] ∧
  import_progress (λ _, true) [] st = (Ok (), st) ∧
  classifications st' = [(lit "a.jpg", SPARSE)] ∧
  console st' = console st ++ [ImportFailed UnicodeDecodeError].
Proof.
  intros st st'.
  assert (progress_path ≠ []) as Hp by discriminate.
  split; [exact Hp|].
  destruct (import_progress_merges (λ _, true) progress_path st)
    as (_ & _ & _ & _ & Hcancel & H).
  split; [exact Hcancel|].
  specialize (H Hp).
  change (files st !! progress_path) with (Some cut_file) in H.
  destruct H as [Hc [He _]]. split; [exact Hc | exact He].
Defined.

(** C2 as stated fails: the import of [progress_text] fails at its second
    line, which has two [:] and is not split at the first, and the entry of
    the first line is in the map that was empty before. *)
Lemma import_progress_counterexample :
  let st := startup (λ _, true) sample_doc
                    {[progress_path := Text progress_text]} in
  let st' := (import_progress (λ _, true) progress_path st).2 in
  classifications st = [] ∧
  console st' = console st ++ [ImportFailed ValueError] ∧
  classifications st' = [(lit "a.jpg", SPARSE)] ∧
  spec_import_line two_colons [] = [(lit "b.jpg", lit "x: y")] ∧
  merge_line two_colons [] = Raise ValueError.
Proof. vm_compute. done. Qed.

(** After that failed import the progress bar still shows the count of
    before, one less than the map now holds. *)
Example progress_after_failed_import :
  let st := startup (λ _, true) sample_doc
                    {[progress_path := Text progress_text]} in
  let st' := (import_progress (λ _, true) progress_path st).2 in
  progress_value st' = 0 ∧ dict_len (classifications st') = 1.
Proof. by vm_compute. Qed.

(** C10. [update_progress] hands the progress bar the number of entries of
    the whole map, whether or not their file names are among the loaded
    records, and the number of records as maximum; after an import of a
    file that names three files, none of them among the two loaded records,
    the value is 3 and the maximum 2. *)
Theorem progress_counts_whole_map (loadable : str → bool) :
  (∀ st,
     update_progress st =
       (Ok (), set_progress (len (image_info st))
                            (dict_len (classifications st)) st)) ∧
  let st := run loadable [ClickImport progress_path]
              (startup loadable sample_doc
                       {[progress_path := Text other_text]}) in
  progress_value st = dict_len (classifications st) ∧
  progress_value st = 3 ∧
  progress_maximum st = len (image_info st) ∧
  progress_maximum st = 2 ∧
  progress_maximum st < progress_value st ∧
  Forall (λ name, name ∉ rec_file_name <$> image_info st)
         (dict_keys (classifications st)).
Proof.
  split; [done|].
  cbv [run fold_left dispatch handle].
  set (st0 := startup loadable sample_doc _).
  destruct (startup_fields loadable sample_doc
              {[progress_path := Text other_text]}) as (Hc & Hi & Hf & _).
  fold st0 in Hc, Hi, Hf.
  assert (files st0 !! progress_path = Some (Text other_text)) as Hl
    by by rewrite Hf.
  rewrite (import_progress_run loadable progress_path st0 _ ltac:(done) Hl).
  rewrite Hc, Hi.
  change (import_outcome (Text other_text) []) with
    ([(lit "x.jpg", SPARSE); (lit "y.jpg", DENSE); (lit "z.jpg", DENSE)],
     @None exn).
  cbv iota beta.
  match goal with |- context [show_image _ ?s] =>
    destruct (show_image_fields loadable s) as (-> & -> & _);
    destruct (show_image_cursor loadable s) as (-> & _);
    assert (progress_maximum (show_image loadable s).2 = progress_maximum s)
      as -> by (apply (preserves_show_image loadable
                  (λ s', progress_maximum s' = progress_maximum s));
                [by intros [] | done])
  end.
  cbn [image_info classifications progress_value progress_maximum
       set_progress set_classifications].
  rewrite Hi. clearbody st0.
  repeat split; try (vm_compute; done).
  apply (bool_decide_unpack _). by vm_compute.
Qed.

(** ** Export, then import *)

Lemma strip_padded v : strip v = v → strip (SPACE :: v ++ [LF]) = v.
Proof.
  intros [Hl Hr]%strip_fixed. unfold strip.
  change (lstrip (SPACE :: v ++ [LF])) with (lstrip (v ++ [LF])).
  destruct v as [|c v]; [done|].
  rewrite lstrip_app_l by by rewrite Hl.
  rewrite Hl, rstrip_snoc. exact Hr.
Qed.

(** The import reads the line of an entry back as the entry. *)
Lemma merge_line_export k v d :
  clean k → clean v → merge_line (export_line (k, v)) d = Ok (dict_set k v d).
Proof.
  intros (Hkc & _ & _ & Hks) (Hvc & _ & _ & Hvs).
  rewrite (merge_line_one _ k (SPACE :: v ++ [LF])).
  - by rewrite Hks, strip_padded.
  - by apply split_first_Some.
  - rewrite not_elem_of_cons, not_elem_of_app, not_elem_of_cons.
    repeat split; try done. apply not_elem_of_nil.
Qed.

Lemma merged_export (cls d : dict str str) :
  NoDup (dict_keys d ++ dict_keys cls) →
  Forall (λ entry, clean entry.1 ∧ clean entry.2) cls →
  merged (export_line <$> cls) d = (d ++ cls, None).
Proof.
  revert d. induction cls as [|[k v] cls IH]; intros d Hnd Hall.
  - by rewrite app_nil_r.
  - apply Forall_cons in Hall as [[Hk Hv] Hall].
    cbn [fmap list_fmap merged]. rewrite merge_line_export by done.
    rewrite dict_set_fresh.
    + rewrite IH; [by rewrite <- app_assoc | | done].
      unfold dict_keys in *. rewrite fmap_app, <- app_assoc. exact Hnd.
    + apply NoDup_app in Hnd as (_ & Hd & _).
      intros Hin. apply (Hd _ Hin). left.
Qed.

Lemma export_text_cons k v (cls : dict str str) :
  export_text ((k, v) :: cls) =
    (k ++ [COLON; SPACE] ++ v) ++ LF :: export_text cls.
Proof.
  unfold export_text, dict_items. cbn [map concat].
  by rewrite <- !app_assoc.
Qed.

(** The reader hands the text of an export back line by line. *)
Lemma readlines_export (cls : dict str str) :
  Forall (λ entry, clean entry.1 ∧ clean entry.2) cls →
  readlines (export_text cls) = export_line <$> cls.
Proof.
  induction cls as [|[k v] cls IH]; intros Hall; [done|].
  apply Forall_cons in Hall as [[(_ & Hkl & Hkr & _) (_ & Hvl & Hvr & _)] Hall].
  rewrite export_text_cons, readlines_line.
  - rewrite IH by done. unfold export_line. simpl. by rewrite <- !app_assoc.
  - rewrite !not_elem_of_app, !not_elem_of_cons.
    repeat split; try done. apply not_elem_of_nil.
  - rewrite !not_elem_of_app, !not_elem_of_cons.
    repeat split; try done. apply not_elem_of_nil.
Qed.

(** C3, amended. For a map whose file names and labels have no [:], no
    line feed, no carriage return and no white space at either end (the two
    labels of the tool are such), exporting to a file and importing that file
    into the emptied map returns, and gives the map back, entry for
    entry. *)
Theorem export_import_identity (loadable : str → bool) (file_path : str)
    (st : annotator) :
  file_path ≠ [] →
  dict_wf (classifications st) →
  Forall (λ entry, clean entry.1 ∧ clean entry.2) (classifications st) →
  clean SPARSE ∧ clean DENSE ∧
  (export_import loadable file_path st).1 = Ok () ∧
  classifications (export_import loadable file_path st).2 =
    classifications st ∧
  dict_eq (classifications (export_import loadable file_path st).2)
          (classifications st).
Proof.
  intros Hp Hwf Hall.
  split; [by apply (bool_decide_unpack _)|].
  split; [by apply (bool_decide_unpack _)|].
  assert ((export_import loadable file_path st).1 = Ok () ∧
          classifications (export_import loadable file_path st).2 =
            classifications st) as [Hok Hc].
  { unfold export_import, export_results. rewrite decide_False by done.
    unfold mbind, M_bind, modify. cbn beta iota.
    match goal with |- context [import_progress _ _ ?s] =>
      destruct (import_progress_file loadable file_path s
                  (Text (export_text (classifications st))) Hp)
        as (Hok & Hc & _);
      [destruct st; simpl; apply lookup_insert_eq|]
    end.
    split; [exact Hok|]. rewrite Hc.
    unfold import_outcome, read. rewrite readlines_export by done.
    replace (classifications
               (set_classifications []
                  (set_files
                     (<[file_path:=Text (export_text (classifications st))]>
                        (files st)) st))) with (@nil (str * str))
      by by destruct st.
    by rewrite merged_export. }
  split; [done|]. split; [done|]. intros k. by rewrite Hc.
Qed.

Lemma export_import_identity_witness :
  let st := set_classifications clean_map (blank ∅) in
  progress_path ≠ [] ∧
  dict_wf (classifications st) ∧
  Forall (λ entry, clean entry.1 ∧ clean entry.2) (classifications st) ∧
  classifications (export_import (λ _, true) progress_path st).2 = clean_map.
Proof.
  intros st.
  assert (progress_path ≠ []) as Hp by discriminate.
  assert (dict_wf (classifications st)) as Hwf
    by (apply (bool_decide_unpack _); vm_compute; exact I).
  assert (Forall (λ entry, clean entry.1 ∧ clean entry.2)
                 (classifications st)) as Hall
    by (apply (bool_decide_unpack _); vm_compute; exact I).
  split; [exact Hp|]. split; [exact Hwf|]. split; [exact Hall|].
  destruct (export_import_identity (λ _, true) progress_path st Hp Hwf Hall)
    as (_ & _ & _ & Hc & _).
  exact Hc.
Defined.

(** C3 as stated fails: a file name that starts with a space has no [:]
    and no line break, yet comes back without the space. *)
Lemma export_import_counterexample :
  let st := set_classifications spaced_map (blank ∅) in
  let st' := (export_import (λ _, true) progress_path st).2 in
  dict_wf spaced_map ∧
  Forall (λ entry, (COLON ∉ entry.1) ∧ (LF ∉ entry.1) ∧ (CR ∉ entry.1) ∧
                   entry.2 = SPARSE) spaced_map ∧
  classifications st' = [(lit "a.jpg", SPARSE)] ∧
  ¬ dict_eq (classifications st') spaced_map.
Proof.
  intros st st'.
  split; [apply (bool_decide_unpack _); vm_compute; exact I|].
  split; [apply (bool_decide_unpack _); vm_compute; exact I|].
  assert (classifications st' = [(lit "a.jpg", SPARSE)]) as Hc
    by (vm_compute; reflexivity).
  split; [exact Hc|].
  rewrite Hc. intros H. specialize (H (lit "a.jpg")). discriminate H.
Qed.

(** ** What the user's actions can and cannot do *)

Lemma py_index_nil {A} (i : Z) : py_index (@nil A) i = None.
Proof.
  unfold py_index, len. simpl.
  rewrite !bool_decide_false by lia. done.
Qed.

Lemma dict_set_length {K V} `{EqDecision K} (k : K) (v : V) (d : dict K V) :
  (length d ≤ length (dict_set k v d))%nat ∧ dict_set k v d ≠ [].
Proof.
  induction d as [|[k' v'] d IH]; simpl; [split; [lia | done]|].
  case_decide; simpl; split; try done; lia.
Qed.

Lemma img_id_to_name_nonempty doc : images doc ≠ [] → img_id_to_name doc ≠ [].
Proof.
  unfold img_id_to_name. destruct (images doc) as [|img imgs]; [done|].
  intros _. simpl.
  assert (∀ (l : list ImageEntry) (d : dict Z str), d ≠ [] →
            fold_left (λ d img, dict_set (img_id img) (img_file_name img) d)
                      l d ≠ []) as H.
  { induction l as [|x l IH]; intros d Hd; [done|].
    simpl. apply IH, dict_set_length. }
  by apply H.
Qed.

Section Actions.
Variable loadable : str → bool.

Lemma import_progress_returns (file_path : str) st :
  (import_progress loadable file_path st).1 = Ok ().
Proof.
  destruct (decide (file_path = [])) as [->|Hp].
  - unfold import_progress. by rewrite decide_True.
  - destruct (files st !! file_path) as [f|] eqn:Hf.
    + by destruct (import_progress_file loadable file_path st f Hp Hf).
    + by rewrite import_progress_missing.
Qed.

(** The records stay as loaded and the cursor stays on one of them. *)
Lemma handle_keeps_cursor ii ev :
  preserves (λ s, image_info s = ii ∧ 0 ≤ current_index s ≤ len ii - 1)
            (handle loadable ev).
Proof.
  assert (of_data (λ s, image_info s = ii ∧
                        0 ≤ current_index s ≤ len ii - 1)) as Hd
    by (intros s Hs; by destruct s).
  destruct ev; simpl;
    unfold show_prev_image, show_next_image, quick_classify, save_and_next,
      save_classification, show_next_image,
      import_progress, export_results, import_line, update_progress;
    repeat first [apply preserves_show_image; exact Hd
                 | apply preserves_setChecked; exact Hd
                 | preserve_step];
    try match goal with
    | H : _ ∧ _ |- _ => destruct H as [<- ?]
    end;
    try (match goal with s : annotator |- _ => destruct s end;
         simpl in *; split; [done | lia]).
Qed.

Lemma handle_returns ev st :
  0 ≤ current_index st ≤ len (image_info st) - 1 →
  (handle loadable ev st).1 = Ok ().
Proof.
  intros Hc.
  destruct (py_index_in_range (image_info st) (current_index st)) as [r Hr];
    [lia|].
  assert ((save_and_next loadable st).1 = Ok ()) as Hsave.
  { unfold save_and_next.
    destruct (save_classification_effect st r Hr) as (Hok & _).
    rewrite (run_bind_ok save_classification
               (λ _, show_next_image loadable) st () Hok).
    apply (step_cursor loadable advance). }
  destruct ev; simpl; try done.
  - apply (step_cursor loadable retreat).
  - apply (step_cursor loadable advance).
  - apply (quick_classify_effect SPARSE st r Hr). by left.
  - apply (quick_classify_effect DENSE st r Hr). by right.
  - apply setChecked_returns.
  - apply setChecked_returns.
  - apply (step_cursor loadable retreat).
  - apply (step_cursor loadable advance).
  - apply import_progress_returns.
  - unfold export_results. by case_decide.
Qed.

Lemma run_keeps_cursor evs st :
  0 ≤ current_index st ≤ len (image_info st) - 1 →
  image_info (run loadable evs st) = image_info st ∧
  0 ≤ current_index (run loadable evs st) ≤ len (image_info st) - 1.
Proof.
  revert st. induction evs as [|ev evs IH]; intros st Hc; [done|].
  change (run loadable (ev :: evs) st)
    with (run loadable evs (handle loadable ev st).2).
  destruct (handle_keeps_cursor (image_info st) ev st) as [Hi Hr]; [done|].
  destruct (IH (handle loadable ev st).2) as [Hi' Hc'];
    [by rewrite Hi|].
  rewrite Hi', Hi. by rewrite Hi in Hc'.
Qed.

(** X2. With at least one image in the document no action of the user raises,
    whatever came before; the records stay as loaded and the cursor stays on
    one of them. *)
Theorem no_action_raises (doc : CocoDocument) (disk : gmap str file)
    (evs : list event) (ev : event) :
  images doc ≠ [] →
  let st := run loadable evs (startup loadable doc disk) in
  (handle loadable ev st).1 = Ok () ∧
  image_info st = image_info (startup loadable doc disk) ∧
  0 ≤ current_index st ≤ len (image_info st) - 1.
Proof.
  intros Hne st.
  destruct (startup_fields loadable doc disk) as (_ & Hi & _ & Hc).
  assert (0 ≤ current_index (startup loadable doc disk)
            ≤ len (image_info (startup loadable doc disk)) - 1) as Hr.
  { rewrite Hc, Hi. unfold len. rewrite length_fmap.
    pose proof (img_id_to_name_nonempty doc Hne).
    destruct (img_id_to_name doc); [done | simpl; lia]. }
  destruct (run_keeps_cursor evs _ Hr) as [Hi' Hc'].
  fold st in Hi', Hc'. split; [|split; [done|by rewrite Hi']].
  apply handle_returns. by rewrite Hi'.
Qed.

(** X3. With no record, saving raises [IndexError] before anything is written:
    the map, the cursor and the progress bar stay as they are, for the save
    key as for the label keys. A label key has set the boxes by then: they
    stand for its label. *)
Theorem no_record_raises (st : annotator) (label : str) :
  image_info st = [] →
  save_classification st = (Raise IndexError, st) ∧
  save_and_next loadable st = (Raise IndexError, st) ∧
  (quick_classify label st).1 = Raise IndexError ∧
  classifications (quick_classify label st).2 = classifications st ∧
  current_index (quick_classify label st).2 = current_index st ∧
  progress_value (quick_classify label st).2 = progress_value st ∧
  sparse_check (quick_classify label st).2 = bool_decide (label = SPARSE) ∧
  dense_check (quick_classify label st).2 =
    negb (bool_decide (label = SPARSE)).
Proof.
  intros Hi.
  assert (∀ s, image_info s = [] →
               save_classification s = (Raise IndexError, s)) as Hsave.
  { intros s Hs. unfold save_classification, mbind, M_bind, get. simpl.
    by rewrite Hs, py_index_nil. }
  split; [by apply Hsave|]. split.
  { unfold save_and_next, mbind, M_bind. by rewrite Hsave. }
  assert (∀ v,
    let m := (setChecked sparse_box v;; setChecked dense_box (negb v));;
             save_classification in
    (m st).1 = Raise IndexError ∧
    classifications (m st).2 = classifications st ∧
    current_index (m st).2 = current_index st ∧
    progress_value (m st).2 = progress_value st ∧
    sparse_check (m st).2 = v ∧
    dense_check (m st).2 = negb v) as H.
  { intros v m. unfold m.
    rewrite (run_bind_ok
               (setChecked sparse_box v;; setChecked dense_box (negb v))
               (λ _, save_classification) st ())
      by by rewrite setChecked_twice_run.
    rewrite setChecked_twice_run. simpl. rewrite Hsave.
    - simpl. destruct st as [? ? ? ? s d ? ? ? ?].
      by destruct v, s, d.
    - destruct st as [? ? ? ? s d ? ? ? ?]. simpl in Hi. subst.
      by destruct v, s, d. }
  unfold quick_classify. case_decide.
  - rewrite bool_decide_true by done. apply (H true).
  - rewrite bool_decide_false by done. apply (H false).
Qed.

(** *** Saving and showing *)

Lemma py_index_elem {A} (l : list A) i x : py_index l i = Some x → x ∈ l.
Proof.
  unfold py_index. repeat case_bool_decide; try done;
    intros Hx; by eapply list_elem_of_lookup_2.
Qed.

Lemma dict_get_del_same {K V} `{EqDecision K} (k : K) (d : dict K V) :
  dict_wf d → dict_get k (dict_del k d) = None.
Proof. intros Hwf. by rewrite dict_get_del, decide_True. Qed.

(** The entry of the current file name after a save. *)
Lemma saved_entry st r :
  py_index (image_info st) (current_index st) = Some r →
  dict_wf (classifications st) →
  dict_get (rec_file_name r) (classifications (save_classification st).2) =
    label_of_boxes st.
Proof.
  intros Hr Hwf.
  destruct (save_classification_effect st r Hr)
    as (_ & _ & _ & _ & _ & -> & _).
  unfold label_of_boxes, dict_contains.
  destruct (sparse_check st); [by rewrite dict_get_set, decide_True|].
  destruct (dense_check st); [by rewrite dict_get_set, decide_True|].
  case_bool_decide as Hin; [by apply dict_get_del_same|].
  destruct (dict_get (rec_file_name r) (classifications st)) eqn:E; [|done].
  exfalso. apply Hin. eauto.
Qed.

Lemma saved_wf st r :
  py_index (image_info st) (current_index st) = Some r →
  dict_wf (classifications st) →
  dict_wf (classifications (save_classification st).2).
Proof.
  intros Hr Hwf.
  destruct (save_classification_effect st r Hr)
    as (_ & _ & _ & _ & _ & -> & _).
  destruct (sparse_check st); [by apply dict_set_wf|].
  destruct (dense_check st); [by apply dict_set_wf|].
  destruct (dict_contains _ _); [by apply dict_del_wf | done].
Qed.

(** X4. What [save_classification] writes: the entry of the current file name
    becomes the label the boxes stand for, or goes when neither is checked;
    the entries of the other file names stay. *)
Theorem save_classification_entry (st : annotator) (r : ImageRecord) :
  py_index (image_info st) (current_index st) = Some r →
  dict_wf (classifications st) →
  dict_get (rec_file_name r) (classifications (save_classification st).2) =
    label_of_boxes st ∧
  (∀ name, name ≠ rec_file_name r →
     dict_get name (classifications (save_classification st).2) =
       dict_get name (classifications st)) ∧
  dict_wf (classifications (save_classification st).2).
Proof.
  intros Hr Hwf.
  destruct (save_classification_effect st r Hr)
    as (_ & _ & _ & _ & _ & -> & _).
  unfold label_of_boxes, dict_contains.
  destruct (sparse_check st); [|destruct (dense_check st)].
  - split; [by rewrite dict_get_set, decide_True|].
    split; [|by apply dict_set_wf].
    intros name Hn. by rewrite dict_get_set, decide_False.
  - split; [by rewrite dict_get_set, decide_True|].
    split; [|by apply dict_set_wf].
    intros name Hn. by rewrite dict_get_set, decide_False.
  - case_bool_decide as Hin.
    + split; [by rewrite dict_get_del, decide_True|].
      split; [|by apply dict_del_wf].
      intros name Hn. by rewrite dict_get_del, decide_False.
    + split; [|done].
      destruct (dict_get (rec_file_name r) (classifications st)) eqn:E;
        [|done].
      exfalso. apply Hin. eauto.
Qed.


Lemma setChecked_pair_effect v1 v2 st :
  v1 && v2 = false →
  (setChecked sparse_box v1;; setChecked dense_box v2) st =
    (Ok (), set_dense_check v2 (set_sparse_check v1 st)).
Proof.
  intros Hv. rewrite setChecked_twice_run.
  destruct st as [? ? ? ? s d ? ? ? ?].
  by destruct v1, v2, s, d.
Qed.

(** [show_image] on a record whose image loads. *)
Lemma show_image_loaded st r :
  0 ≤ current_index st < len (image_info st) →
  py_index (image_info st) (current_index st) = Some r →
  loadable (rec_file_name r) = true →
  show_image loadable st =
    (Ok (),
     set_dense_check
       (bool_decide (dict_get (rec_file_name r) (classifications st)
                     = Some DENSE))
       (set_sparse_check
          (bool_decide (dict_get (rec_file_name r) (classifications st)
                        = Some SPARSE))
          st)).
Proof.
  intros Hin Hr Hload.
  unfold show_image, mbind at 1, M_bind at 1, get. simpl.
  rewrite bool_decide_false by lia. rewrite Hr, Hload. simpl.
  destruct (dict_get (rec_file_name r) (classifications st)) as [l|].
  - rewrite setChecked_pair_effect.
    + do 2 f_equal; [|f_equal]; apply bool_decide_ext; split; congruence.
    + repeat case_bool_decide; subst; done.
  - by rewrite setChecked_pair_effect.
Qed.


(** X6. A stored label that is neither of the two is lost by looking at the
    image and saving: the boxes come up unchecked, and the save key then
    removes the entry. *)
Theorem foreign_label_cleared (st : annotator) (r : ImageRecord)
    (label : str) :
  0 ≤ current_index st < len (image_info st) →
  py_index (image_info st) (current_index st) = Some r →
  loadable (rec_file_name r) = true →
  dict_wf (classifications st) →
  dict_get (rec_file_name r) (classifications st) = Some label →
  label ≠ SPARSE → label ≠ DENSE →
  let shown := (show_image loadable st).2 in
  sparse_check shown = false ∧ dense_check shown = false ∧
  (save_and_next loadable shown).1 = Ok () ∧
  dict_get (rec_file_name r)
           (classifications (save_and_next loadable shown).2) = None.
Proof.
  intros Hin Hr Hload Hwf Hl Hs Hd shown.
  pose proof (show_image_loaded st r Hin Hr Hload) as Hshow.
  rewrite Hl in Hshow.
  rewrite !bool_decide_false in Hshow by congruence.
  assert (shown = set_dense_check false (set_sparse_check false st)) as ->
    by (unfold shown; by rewrite Hshow).
  split; [done|]. split; [done|].
  set (st1 := set_dense_check false (set_sparse_check false st)).
  assert (py_index (image_info st1) (current_index st1) = Some r) as Hr1
    by (by destruct st).
  assert (dict_wf (classifications st1)) as Hwf1 by (by destruct st).
  destruct (save_classification_effect st1 r Hr1) as (Hok & _).
  pose proof (saved_entry st1 r Hr1 Hwf1) as Hget.
  unfold save_and_next.
  rewrite (run_bind_ok save_classification (λ _, show_next_image loadable)
             st1 () Hok).
  split; [apply (step_cursor loadable advance)|].
  unfold show_next_image.
  rewrite (run_bind_ok _ _ _ ()) by done. simpl.
  match goal with |- context [show_image _ ?s] =>
    destruct (show_image_fields loadable s) as (-> & _) end.
  simpl. rewrite Hget. by destruct st.
Qed.

End Actions.

Lemma no_action_raises_witness :
  images sample_doc ≠ [] ∧
  (handle (λ _, true) KeySpace
     (run (λ _, true) [KeyRight; Key1] (startup (λ _, true) sample_doc ∅))).1 = Ok ().
Proof.
  assert (images sample_doc ≠ []) as Hne by discriminate.
  split; [exact Hne|].
  exact (proj1 (no_action_raises (λ _, true) sample_doc ∅ [KeyRight; Key1] KeySpace Hne)).
Defined.

Lemma no_record_raises_witness :
  image_info empty_window = [] ∧
  save_and_next (λ _, true) empty_window = (Raise IndexError, empty_window).
Proof.
  assert (image_info empty_window = []) as Hi by reflexivity.
  split; [exact Hi|].
  exact (proj1 (proj2 (no_record_raises (λ _, true) empty_window SPARSE Hi))).
Defined.

Lemma save_classification_entry_witness :
  py_index (image_info foreign_window) (current_index foreign_window) =
    Some {| rec_id := 7; rec_file_name := lit "a.jpg"; rec_annotations := [] |} ∧
  dict_wf (classifications foreign_window) ∧
  dict_get (lit "a.jpg")
           (classifications (save_classification foreign_window).2) =
    Some SPARSE.
Proof.
  assert (py_index (image_info foreign_window) (current_index foreign_window)
          = Some {| rec_id := 7; rec_file_name := lit "a.jpg";
                    rec_annotations := [] |}) as Hr by reflexivity.
  assert (dict_wf (classifications foreign_window)) as Hwf
    by (apply (bool_decide_unpack _); vm_compute; exact I).
  split; [exact Hr|]. split; [exact Hwf|].
  exact (proj1 (save_classification_entry foreign_window _ Hr Hwf)).
Defined.


Lemma foreign_label_cleared_witness :
  0 ≤ current_index foreign_window < len (image_info foreign_window) ∧
  dict_wf (classifications foreign_window) ∧
  dict_get (lit "a.jpg") (classifications foreign_window) = Some (lit "maybe") ∧
  lit "maybe" ≠ SPARSE ∧ lit "maybe" ≠ DENSE ∧
  dict_get (lit "a.jpg")
    (classifications
       (save_and_next (λ _, true)
          (show_image (λ _, true) foreign_window).2).2) = None.
Proof.
  assert (0 ≤ current_index foreign_window < len (image_info foreign_window))
    as Hin by (vm_compute; split; [discriminate | reflexivity]).
  assert (dict_wf (classifications foreign_window)) as Hwf
    by (apply (bool_decide_unpack _); vm_compute; exact I).
  assert (lit "maybe" ≠ SPARSE) as Hs by discriminate.
  assert (lit "maybe" ≠ DENSE) as Hd by discriminate.
  split; [exact Hin|]. split; [exact Hwf|]. split; [reflexivity|].
  split; [exact Hs|]. split; [exact Hd|].
  exact (proj2 (proj2 (proj2
    (foreign_label_cleared (λ _, true) foreign_window
       {| rec_id := 7; rec_file_name := lit "a.jpg"; rec_annotations := [] |}
       (lit "maybe") Hin eq_refl eq_refl Hwf eq_refl Hs Hd)))).
Defined.

(** ** The slots of the two boxes *)

(** X7. The slots that one [setChecked] call sets off come to an end: letting
    slots run inside slots deeper than two levels gives the same window. And
    in a window where at most one box is checked, the slot of either box
    finds nothing to do. *)
Theorem slot_cascade_ends (box : checkbox) (v : bool) (n : nat)
    (st : annotator) :
  setChecked_upto (2 + n) box v st = setChecked box v st ∧
  (setChecked box v st).1 = Ok () ∧
  (exclusive st → single_check box st = (Ok (), st)).
Proof.
  split; [|split].
  - destruct st as [? ? ? ? s d ? ? ? ?].
    destruct n as [|[|n]]; by destruct box, v, s, d.
  - apply setChecked_returns.
  - unfold exclusive. destruct st as [? ? ? ? s d ? ? ? ?]. simpl.
    intros Hex. destruct box, s, d; try done; exfalso; by apply Hex.
Qed.

Lemma slot_cascade_ends_witness :
  exclusive foreign_window ∧
  single_check sparse_box foreign_window = (Ok (), foreign_window).
Proof.
  assert (exclusive foreign_window) as Hex by (intros [_ H]; discriminate H).
  split; [exact Hex|].
  exact (proj2 (proj2 (slot_cascade_ends sparse_box true 0 foreign_window))
           Hex).
Defined.

(** ** More on the progress file *)

Lemma merge_line_cases line d :
  merge_line line d = Ok d ∨
  merge_line line d = Raise ValueError ∨
  ∃ a b, split COLON (strip line) = [a; b] ∧
         merge_line line d = Ok (dict_set (strip a) (strip b) d).
Proof.
  unfold merge_line. destruct (str_contains COLON line); [|by left].
  destruct (split COLON (strip line)) as [|p [|q [|? ?]]]; eauto.
  right. right. eauto.
Qed.

(** The loop only sets entries: a name that is in the map stays in it. *)
Lemma merged_keeps lines (d : dict str str) name :
  is_Some (dict_get name d) → is_Some (dict_get name (merged lines d).1).
Proof.
  revert d. induction lines as [|line lines IH]; intros d Hd; [done|].
  simpl. destruct (merge_line_cases line d) as [->|[->|(a & b & _ & ->)]].
  - by apply IH.
  - done.
  - apply IH. rewrite dict_get_set. by case_decide.
Qed.

Lemma merged_wf lines (d : dict str str) :
  dict_wf d → dict_wf (merged lines d).1.
Proof.
  revert d. induction lines as [|line lines IH]; intros d Hd; [done|].
  simpl. destruct (merge_line_cases line d) as [->|[->|(a & b & _ & ->)]].
  - by apply IH.
  - done.
  - by apply IH, dict_set_wf.
Qed.

Lemma merged_export_any (cls d : dict str str) :
  Forall (λ entry, clean entry.1 ∧ clean entry.2) cls →
  merged (export_line <$> cls) d =
    (fold_left (λ d entry, dict_set entry.1 entry.2 d) cls d, None).
Proof.
  revert d. induction cls as [|[k v] cls IH]; intros d Hall; [done|].
  apply Forall_cons in Hall as [[Hk Hv] Hall].
  cbn [fmap list_fmap merged fold_left]. rewrite merge_line_export by done.
  by apply IH.
Qed.

Lemma dict_get_fold_set (cls d : dict str str) name :
  dict_wf cls →
  dict_get name (fold_left (λ d entry, dict_set entry.1 entry.2 d) cls d) =
    match dict_get name cls with
    | Some label => Some label
    | None => dict_get name d
    end.
Proof.
  unfold dict_wf, dict_keys. revert d.
  induction cls as [|[k v] cls IH]; intros d Hwf; [done|].
  apply NoDup_cons in Hwf as [Hk Hwf].
  cbn [fold_left]. rewrite IH by done. simpl.
  rewrite dict_get_set.
  destruct (decide (name = k)) as [->|Hne]; [|done].
  by rewrite (proj2 (dict_get_None k cls) Hk).
Qed.

Section ImportMore.
Variable loadable : str → bool.

(** X8. An import never takes a file name out of the map, whether it ends well
    or not. *)
Theorem import_keeps_names (file_path : str) (st : annotator) (name : str) :
  is_Some (dict_get name (classifications st)) →
  is_Some (dict_get name
             (classifications (import_progress loadable file_path st).2)).
Proof.
  intros Hin.
  destruct (decide (file_path = [])) as [->|Hp].
  { unfold import_progress. by rewrite decide_True. }
  destruct (files st !! file_path) as [f|] eqn:Hf.
  - destruct (import_progress_file loadable file_path st f Hp Hf)
      as (_ & -> & _).
    unfold import_outcome. destruct (read f) as [lines ending].
    pose proof (merged_keeps lines (classifications st) name Hin) as H.
    by destruct (merged lines (classifications st)) as [d [e|]].
  - rewrite import_progress_missing by done. by destruct st.
Qed.

(** X9. Importing the export of a map into another map: for a file name of the
    file the imported label wins, the other entries stay. *)
Theorem import_overrides (file_path : str) (st : annotator)
    (exported : dict str str) (name : str) :
  file_path ≠ [] →
  files st !! file_path = Some (Text (export_text exported)) →
  dict_wf exported →
  Forall (λ entry, clean entry.1 ∧ clean entry.2) exported →
  (import_progress loadable file_path st).1 = Ok () ∧
  dict_get name (classifications (import_progress loadable file_path st).2) =
    match dict_get name exported with
    | Some label => Some label
    | None => dict_get name (classifications st)
    end ∧
  progress_value (import_progress loadable file_path st).2 =
    dict_len (classifications (import_progress loadable file_path st).2).
Proof.
  intros Hp Hf Hwf Hall.
  destruct (import_progress_file loadable file_path st _ Hp Hf)
    as (Hok & Hc & Hout).
  unfold import_outcome, read in Hc, Hout.
  rewrite readlines_export, merged_export_any in Hc, Hout by done.
  simpl in Hc, Hout. split; [done|]. split; [|done].
  rewrite Hc. by apply dict_get_fold_set.
Qed.

End ImportMore.

Lemma import_overrides_witness :
  let st := set_files {[progress_path := Text (export_text clean_map)]}
                      foreign_window in
  progress_path ≠ [] ∧
  dict_wf clean_map ∧
  Forall (λ entry, clean entry.1 ∧ clean entry.2) clean_map ∧
  dict_get (lit "a.jpg")
    (classifications (import_progress (λ _, true) progress_path st).2) =
    Some SPARSE ∧
  dict_get (lit "b.jpg")
    (classifications (import_progress (λ _, true) progress_path st).2) =
    Some DENSE.
Proof.
  intros st.
  assert (progress_path ≠ []) as Hp by discriminate.
  assert (dict_wf clean_map) as Hwf
    by (apply (bool_decide_unpack _); vm_compute; exact I).
  assert (Forall (λ entry, clean entry.1 ∧ clean entry.2) clean_map) as Hall
    by (apply (bool_decide_unpack _); vm_compute; exact I).
  assert (files st !! progress_path = Some (Text (export_text clean_map)))
    as Hf by reflexivity.
  split; [exact Hp|]. split; [exact Hwf|]. split; [exact Hall|].
  split.
  - exact (proj1 (proj2 (import_overrides (λ _, true) progress_path st
                           clean_map (lit "a.jpg") Hp Hf Hwf Hall))).
  - exact (proj1 (proj2 (import_overrides (λ _, true) progress_path st
                           clean_map (lit "b.jpg") Hp Hf Hwf Hall))).
Defined.

Lemma import_keeps_names_witness :
  let st := set_files {[progress_path := Text progress_text]} foreign_window in
  is_Some (dict_get (lit "b.jpg") (classifications st)) ∧
  is_Some (dict_get (lit "b.jpg")
             (classifications (import_progress (λ _, true) progress_path st).2)).
Proof.
  intros st.
  assert (is_Some (dict_get (lit "b.jpg") (classifications st))) as Hin
    by (exists DENSE; reflexivity).
  split; [exact Hin|].
  exact (import_keeps_names (λ _, true) progress_path st (lit "b.jpg") Hin).
Defined.

(** ** The progress bar when no file is imported *)

Lemma counted_of_data ii : of_data (counted ii).
Proof. intros s Hs. by destruct s. Qed.

Lemma counted_save_classification ii :
  preserves (counted ii) save_classification.
Proof.
  intros st (Hi & Hv & Hm & Hwf & Hk).
  destruct (py_index (image_info st) (current_index st)) as [r|] eqn:Hr.
  - destruct (save_classification_effect st r Hr)
      as (_ & _ & _ & Hi' & _ & Hc & Hm' & Hv').
    pose proof (saved_wf st r Hr Hwf) as Hwf'.
    assert (rec_file_name r ∈ rec_file_name <$> ii) as Hname.
    { apply list_elem_of_fmap. exists r. split; [done|].
      rewrite <- Hi. by eapply py_index_elem. }
    unfold counted. rewrite Hi', Hi in *.
    split; [done|]. split; [done|]. split; [done|]. split; [done|].
    rewrite Hc.
    destruct (sparse_check st); [|destruct (dense_check st)].
    + rewrite dict_keys_set. destruct (dict_contains _ _); [done|].
      apply Forall_app. split; [done|]. by repeat constructor.
    + rewrite dict_keys_set. destruct (dict_contains _ _); [done|].
      apply Forall_app. split; [done|]. by repeat constructor.
    + destruct (dict_contains _ _); [|done].
      rewrite Forall_forall in *. intros name Hn.
      by apply Hk, (dict_keys_del (rec_file_name r)).
  - unfold save_classification, mbind, M_bind, get. simpl. rewrite Hr.
    by simpl.
Qed.

Section Counted.
Variable loadable : str → bool.

Lemma counted_handle ii ev :
  is_import ev = false → preserves (counted ii) (handle loadable ev).
Proof.
  pose proof (counted_of_data ii) as Hd.
  destruct ev; try done; intros _; simpl;
    unfold show_prev_image, show_next_image, quick_classify, save_and_next,
      show_next_image, export_results;
    repeat first [apply preserves_show_image; exact Hd
                 | apply preserves_setChecked; exact Hd
                 | apply counted_save_classification
                 | preserve_step];
    try (match goal with s : annotator |- _ => by destruct s end).
Qed.

Lemma counted_startup doc disk :
  counted (image_info (startup loadable doc disk)) (startup loadable doc disk).
Proof.
  destruct (startup_fields loadable doc disk) as (Hc & Hi & _ & _).
  assert (progress_value (startup loadable doc disk) = 0 ∧
          progress_maximum (startup loadable doc disk) =
            len (record_of doc <$> img_id_to_name doc)) as [Hv Hm].
  { unfold startup, init.
    rewrite (run_bind_ok (load_annotations doc) _ _ ())
      by by rewrite load_annotations_run.
    rewrite load_annotations_run.
    rewrite (run_bind_ok init_ui _ _ ()) by done.
    apply (preserves_show_image loadable
             (λ s, progress_value s = 0 ∧
                   progress_maximum s =
                     len (record_of doc <$> img_id_to_name doc))).
    - intros s Hs. by destruct s.
    - unfold init_ui, update_progress, mbind, M_bind, get, modify. simpl.
      done. }
  unfold counted. rewrite Hc, Hv, Hm, Hi.
  repeat split; try done. apply NoDup_nil_2.
Qed.

(** X10. As long as no file is imported, the progress bar shows the size of the
    map and the number of records, the map names only files of the records,
    and the value never passes the maximum. *)
Theorem progress_without_import (doc : CocoDocument) (disk : gmap str file)
    (evs : list event) :
  Forall (λ ev, is_import ev = false) evs →
  let st := run loadable evs (startup loadable doc disk) in
  progress_value st = dict_len (classifications st) ∧
  progress_maximum st = len (image_info st) ∧
  Forall (λ name, name ∈ rec_file_name <$> image_info st)
         (dict_keys (classifications st)) ∧
  progress_value st ≤ progress_maximum st.
Proof.
  intros Hev st.
  assert (counted (image_info (startup loadable doc disk)) st)
    as (Hi & Hv & Hm & Hwf & Hk).
  { unfold st. generalize (counted_startup doc disk).
    generalize (image_info (startup loadable doc disk)) as ii.
    generalize (startup loadable doc disk) as s.
    induction Hev as [|ev evs Hne _ IH]; intros s ii Hs; [done|].
    simpl. apply IH. by apply counted_handle. }
  rewrite Hi, Hv, Hm. repeat split; try done.
  unfold dict_len, len.
  assert (length (classifications st) ≤
          length (rec_file_name <$> image_info (startup loadable doc disk)))%nat
    as Hlen.
  { rewrite <- (length_fmap fst (classifications st)).
    apply submseteq_length, NoDup_submseteq; [exact Hwf|].
    by apply Forall_forall. }
  rewrite length_fmap in Hlen. lia.
Qed.

End Counted.

Lemma progress_without_import_witness :
  let evs := [Key1; KeyRight; Key2; ClickDense; KeySpace;
              ClickExport progress_path] in
  let st := run (λ _, true) evs (startup (λ _, true) sample_doc ∅) in
  Forall (λ ev, is_import ev = false) evs ∧
  progress_value st = dict_len (classifications st) ∧
  progress_value st ≤ progress_maximum st.
Proof.
  intros evs st.
  assert (Forall (λ ev, is_import ev = false) evs) as Hev
    by (repeat constructor).
  split; [exact Hev|].
  destruct (progress_without_import (λ _, true) sample_doc ∅ evs Hev)
    as (Hv & _ & _ & Hle).
  split; [exact Hv | exact Hle].
Defined.

(** ** A map that came from a file goes back to a file and comes back *)

Lemma readlines_shape_both s :
  Forall line_shape (readlines s) ∧
  match s with
  | [] => True
  | _ :: s' => Forall line_shape (readlines s')
  end.
Proof.
  induction s as [|c s [IH1 IH2]]; [by split|].
  split; [|exact IH1].
  assert (line_shape [LF]) as Hlf.
  { exists []. split; [by left|]. split; apply not_elem_of_nil. }
  cbn [readlines]. case_decide as Hl; [by constructor|].
  case_decide as Hr.
  - constructor; [done|].
    destruct s as [|c2 s]; [constructor|]. by case_decide.
  - destruct (readlines s) as [|l ls] eqn:E.
    + constructor; [|constructor]. exists [c].
      split; [by right|].
      split; intros ?%list_elem_of_singleton; congruence.
    + apply Forall_cons in IH1 as [(body & Hb & Hnl & Hnr) IH1].
      constructor; [|done]. exists (c :: body).
      split; [destruct Hb as [-> | ->]; [by left | by right]|].
      split; rewrite not_elem_of_cons; split; congruence.
Qed.

Lemma readlines_shape s : Forall line_shape (readlines s).
Proof. apply readlines_shape_both. Qed.

Lemma strip_line_end body : strip (body ++ [LF]) = strip body.
Proof.
  unfold strip. destruct (lstrip body) as [|c l] eqn:E.
  - by rewrite lstrip_nil_app.
  - rewrite lstrip_app_l by by rewrite E. by rewrite E, rstrip_snoc.
Qed.

Lemma elem_of_strip c s : c ∈ strip s → c ∈ s.
Proof. intros H. by apply elem_of_lstrip, elem_of_rstrip. Qed.

Lemma strip_idem s : strip (strip s) = strip s.
Proof.
  unfold strip. by rewrite <- lstrip_rstrip, rstrip_idem, lstrip_rstrip,
    lstrip_idem.
Qed.

(** The pieces [split] gives hold no separator and nothing new. *)
Lemma split_pieces c s :
  Forall (λ p, (c ∉ p) ∧ ∀ x, x ∈ p → x ∈ s) (split c s).
Proof.
  induction s as [|c' s IH]; simpl.
  - constructor; [|constructor]. split; [apply not_elem_of_nil | done].
  - assert (Forall (λ p, (c ∉ p) ∧ ∀ x, x ∈ p → x ∈ c' :: s) (split c s))
      as IH'.
    { eapply Forall_impl; [exact IH|]. intros p [Hc Hp].
      split; [done|]. intros x Hx. right. by apply Hp. }
    case_decide as Hc.
    + constructor; [|done].
      split; [apply not_elem_of_nil | by intros x ?%elem_of_nil].
    + destruct (split c s) as [|p ps].
      * constructor; [|constructor]. split.
        -- intros ?%list_elem_of_singleton. congruence.
        -- intros x ->%list_elem_of_singleton. left.
      * apply Forall_cons in IH' as [[Hp Hin] IH'].
        constructor; [|done]. split.
        -- rewrite not_elem_of_cons. split; [congruence | done].
        -- intros x [->|Hx]%elem_of_cons; [left | by apply Hin].
Qed.

(** What the loop sets for a line of the reader is clean. *)
Lemma merge_line_clean line (d d' : dict str str) :
  line_shape line → merge_line line d = Ok d' →
  d' = d ∨ ∃ k v, clean k ∧ clean v ∧ d' = dict_set k v d.
Proof.
  intros (body & Hb & Hnl & Hnr) Hm.
  destruct (merge_line_cases line d) as [E|[E|(a & b & Hsplit & E)]];
    rewrite E in Hm; try done; injection Hm as <-; [by left|].
  right. exists (strip a), (strip b).
  assert (strip line = strip body) as Hstrip
    by (destruct Hb as [-> | ->]; [apply strip_line_end | done]).
  pose proof (split_pieces COLON (strip line)) as Hp.
  rewrite Hsplit in Hp.
  apply Forall_cons in Hp as [[Hac Hain] Hp].
  apply Forall_cons in Hp as [[Hbc Hbin] _].
  assert (∀ piece, (COLON ∉ piece) → (∀ x, x ∈ piece → x ∈ strip line) →
                   clean (strip piece)) as Hclean.
  { intros piece Hc Hin. unfold clean.
    assert (∀ x, x ∈ strip piece → x ∈ body) as Hbody.
    { intros x Hx. apply elem_of_strip. rewrite <- Hstrip.
      by apply Hin, elem_of_strip. }
    split; [by intros ?%elem_of_strip|].
    split; [by intros ?%Hbody|]. split; [by intros ?%Hbody|].
    apply strip_idem. }
  split; [by apply Hclean|]. split; [by apply Hclean | done].
Qed.

Lemma Forall_dict_set {K V} `{EqDecision K} (P : K * V → Prop) k v d :
  P (k, v) → Forall P d → Forall P (dict_set k v d).
Proof.
  intros Hkv. induction d as [|[k' v'] d IH]; intros Hd; simpl.
  - by constructor.
  - apply Forall_cons in Hd as [Hk' Hd].
    case_decide; subst; constructor; auto.
Qed.

Lemma merged_clean lines (d : dict str str) :
  Forall line_shape lines →
  Forall (λ entry, clean entry.1 ∧ clean entry.2) d →
  Forall (λ entry, clean entry.1 ∧ clean entry.2) (merged lines d).1.
Proof.
  intros Hlines. revert d.
  induction Hlines as [|line lines Hline _ IH]; intros d Hd; [done|].
  simpl. destruct (merge_line line d) as [d'|e] eqn:E; [|done].
  apply IH.
  destruct (merge_line_clean line d d' Hline E)
    as [-> | (k & v & Hk & Hv & ->)]; [done|].
  by apply Forall_dict_set.
Qed.

Section Reimport.
Variable loadable : str → bool.

(** The export of a clean map, read back into the emptied map. *)
Lemma export_import_run (file_path : str) st :
  file_path ≠ [] →
  dict_wf (classifications st) →
  Forall (λ entry, clean entry.1 ∧ clean entry.2) (classifications st) →
  (export_import loadable file_path st).1 = Ok () ∧
  classifications (export_import loadable file_path st).2 =
    classifications st.
Proof.
  intros Hp Hwf Hall.
  unfold export_import, export_results. rewrite decide_False by done.
  unfold mbind, M_bind, modify. cbn beta iota.
  match goal with |- context [import_progress _ _ ?s] =>
    destruct (import_progress_file loadable file_path s
                (Text (export_text (classifications st))) Hp)
      as (Hok & Hc & _);
    [destruct st; simpl; apply lookup_insert_eq|]
  end.
  split; [exact Hok|]. rewrite Hc.
  unfold import_outcome, read. rewrite readlines_export by done.
  replace (classifications
             (set_classifications []
                (set_files
                   (<[file_path:=Text (export_text (classifications st))]>
                      (files st)) st))) with (@nil (str * str))
    by by destruct st.
  by rewrite merged_export.
Qed.

(** X11. Whatever text a progress file holds, the map after its import (into a
    clean map, the empty one for instance) is clean, whether the import
    ended well or not: exporting that map and importing the export into the
    emptied map gives it back. *)
Theorem imported_map_round_trips (file_path again : str) (st : annotator)
    (content : str) :
  file_path ≠ [] → again ≠ [] →
  files st !! file_path = Some (Text content) →
  dict_wf (classifications st) →
  Forall (λ entry, clean entry.1 ∧ clean entry.2) (classifications st) →
  let imported := (import_progress loadable file_path st).2 in
  dict_wf (classifications imported) ∧
  Forall (λ entry, clean entry.1 ∧ clean entry.2) (classifications imported) ∧
  (export_import loadable again imported).1 = Ok () ∧
  classifications (export_import loadable again imported).2 =
    classifications imported.
Proof.
  intros Hp Hp' Hf Hwf Hall imported.
  assert (classifications imported =
            (merged (readlines content) (classifications st)).1) as Hc.
  { unfold imported.
    destruct (import_progress_file loadable file_path st _ Hp Hf)
      as (_ & -> & _).
    unfold import_outcome, read.
    by destruct (merged (readlines content) (classifications st))
      as [d [e|]]. }
  assert (dict_wf (classifications imported)) as Hwf'
    by (rewrite Hc; by apply merged_wf).
  assert (Forall (λ entry, clean entry.1 ∧ clean entry.2)
                 (classifications imported)) as Hall'
    by (rewrite Hc; apply merged_clean; [apply readlines_shape | done]).
  split; [done|]. split; [done|]. by apply export_import_run.
Qed.

End Reimport.

Lemma imported_map_round_trips_witness :
  let st := set_files {[progress_path := Text progress_text]} foreign_window in
  let imported := (import_progress (λ _, true) progress_path st).2 in
  progress_path ≠ [] ∧
  files st !! progress_path = Some (Text progress_text) ∧
  dict_wf (classifications st) ∧
  Forall (λ entry, clean entry.1 ∧ clean entry.2) (classifications st) ∧
  classifications (export_import (λ _, true) progress_path imported).2 =
    classifications imported.
Proof.
  intros st imported.
  assert (progress_path ≠ []) as Hp by discriminate.
  assert (files st !! progress_path = Some (Text progress_text)) as Hf
    by reflexivity.
  assert (dict_wf (classifications st)) as Hwf
    by (apply (bool_decide_unpack _); vm_compute; exact I).
  assert (Forall (λ entry, clean entry.1 ∧ clean entry.2)
                 (classifications st)) as Hall
    by (apply (bool_decide_unpack _); vm_compute; exact I).
  split; [exact Hp|]. split; [exact Hf|]. split; [exact Hwf|].
  split; [exact Hall|].
  exact (proj2 (proj2 (proj2
    (imported_map_round_trips (λ _, true) progress_path progress_path st
       progress_text Hp Hp Hf Hwf Hall)))).
Defined.

(** ** The annotation index of any document *)



Section FoldSet.
Context {A K V : Type} `{EqDecision K} (f : A → K) (g : A → V).





End FoldSet.



End AnnotatorFacts.

(** ** The converter *)

Module Voc2CocoFacts.
Import Voc2Coco.

Local Open Scope string_scope.
Local Open Scope list_scope.

(** *** The loops over the objects and over the ids *)

Lemma object_loop iid objs b :
  fold_left (object_step iid) objs b =
    {| images := images b;
       annotations :=
         annotations b ++
         imap (λ k obj, annotation_of (annotation_id b + Z.of_nat k) (iid, obj))
              objs;
       category_names := category_names b ++ (name <$> objs);
       annotation_id := annotation_id b + len objs |}.
Proof.
  revert b. induction objs as [|obj objs IH]; intros b.
  - destruct b. simpl. unfold len. simpl.
    by rewrite !app_nil_r, Z.add_0_r.
  - cbn [fold_left]. rewrite IH. unfold object_step. cbn [images annotations
      category_names annotation_id imap fmap list_fmap].
    f_equal.
    + rewrite <- app_assoc. f_equal. simpl. unfold annotation_of. simpl.
      rewrite Z.add_0_r. f_equal.
      apply imap_ext. intros k o _. unfold compose.
      by replace (annotation_id b + 1 + Z.of_nat k)
        with (annotation_id b + Z.of_nat (S k)) by lia.
    + by rewrite <- app_assoc.
    + unfold len. simpl. lia.
Qed.

Lemma tagged_snoc ps p :
  tagged (ps ++ [p]) =
    tagged ps ++ ((λ obj, (len ps + 1, obj)) <$> objects p.2).
Proof.
  unfold tagged, len. rewrite imap_app, concat_app. simpl.
  by rewrite app_nil_r, Nat.add_0_r.
Qed.

Lemma processed_cons t i ids :
  processed t (i :: ids) = processed t [i] ++ processed t ids.
Proof.
  unfold processed. simpl.
  destruct (image_exists t i); [|done].
  by destruct (annotation_file t i).
Qed.

Lemma build_of_snoc ps i root :
  fold_left (object_step (len ps + 1)) (objects root)
    {| images := images (build_of ps) ++ [image_of (len ps + 1) (i, root)];
       annotations := annotations (build_of ps);
       category_names := category_names (build_of ps);
       annotation_id := annotation_id (build_of ps) |}
  = build_of (ps ++ [(i, root)]).
Proof.
  rewrite object_loop. unfold build_of, observed.
  cbn [images annotations category_names annotation_id].
  rewrite tagged_snoc. cbn [snd].
  rewrite !imap_app, fmap_app, imap_fmap, <- list_fmap_compose.
  f_equal.
  - simpl. unfold len. by rewrite Nat.add_0_r.
  - f_equal. apply imap_ext. intros k o _. simpl. f_equal. unfold len. lia.
  - unfold len. rewrite length_app, length_fmap. lia.
Qed.

Lemma image_step_build t ps i :
  image_step t (build_of ps) i = build_of (ps ++ processed t [i]).
Proof.
  unfold image_step, processed. simpl.
  destruct (annotation_file t i) as [root|];
    destruct (image_exists t i); simpl; rewrite ?app_nil_r; try done.
  rewrite <- build_of_snoc. unfold len. rewrite length_imap. done.
Qed.

Lemma image_loop t ids ps :
  fold_left (image_step t) ids (build_of ps) =
    build_of (ps ++ processed t ids).
Proof.
  revert ps. induction ids as [|i ids IH]; intros ps.
  - simpl. by rewrite app_nil_r.
  - cbn [fold_left]. rewrite image_step_build, IH, (processed_cons t i ids).
    by rewrite <- app_assoc.
Qed.

(** *** The categories *)

Lemma category_loop names cats n :
  fold_left category_step names (cats, n) =
    (cats ++ imap (λ k c, category_of (n + Z.of_nat k) c) names,
     n + len names).
Proof.
  revert cats n. induction names as [|c names IH]; intros cats n.
  - simpl. unfold len. simpl. by rewrite app_nil_r, Z.add_0_r.
  - cbn [fold_left category_step]. rewrite IH. f_equal.
    + rewrite <- app_assoc. f_equal. simpl. rewrite Z.add_0_r. f_equal.
      apply imap_ext. intros k o _. simpl. f_equal. lia.
    + unfold len. simpl. lia.
Qed.

Lemma build_categories_run names :
  build_categories names = imap (λ k c, category_of (Z.of_nat k + 1) c) names.
Proof.
  unfold build_categories. rewrite category_loop. simpl.
  apply imap_ext. intros k o _. simpl. f_equal. lia.
Qed.

Lemma place_pos n names : n ∈ names → 0 < place n names.
Proof.
  induction names as [|c names IH]; [by intros ?%elem_of_nil|].
  simpl. case_decide; [lia|].
  intros [?|Hin]%elem_of_cons; [congruence|].
  specialize (IH Hin). destruct (place n names); lia.
Qed.

Lemma place_lookup n names :
  n ∈ names → names !! Z.to_nat (place n names - 1) = Some n.
Proof.
  induction names as [|c names IH]; [by intros ?%elem_of_nil|].
  simpl. case_decide as Hc; [by subst|].
  intros [?|Hin]%elem_of_cons; [congruence|].
  pose proof (place_pos n names Hin). specialize (IH Hin).
  destruct (place n names) as [|p|p]; try lia.
  replace (Z.to_nat (Z.pos p + 1 - 1)) with (S (Z.to_nat (Z.pos p - 1)))
    by lia.
  done.
Qed.

Lemma matching_ids_none (g : nat → Z) names n :
  n ∉ names →
  matching_ids (imap (λ k c, category_of (g k) c) names) (VStr n) = [].
Proof.
  revert g. induction names as [|c names IH]; intros g; [done|].
  rewrite not_elem_of_cons. intros [Hne Hn].
  unfold matching_ids in *. cbn [imap omap list_omap category_of dict_get].
  simpl. rewrite decide_False by congruence.
  apply (IH (g ∘ S) Hn).
Qed.

(** The lookup of the resolution pass finds one id: the place of the name
    among the sorted names. *)
Lemma matching_ids_one off names n :
  NoDup names → n ∈ names →
  matching_ids (imap (λ k c, category_of (off + Z.of_nat k) c) names) (VStr n)
    = [VInt (off - 1 + place n names)].
Proof.
  revert off. induction names as [|c names IH]; intros off Hnd Hin.
  - by apply elem_of_nil in Hin.
  - apply NoDup_cons in Hnd as [Hc Hnd].
    unfold matching_ids in *. cbn [imap omap list_omap place].
    unfold category_of at 1. simpl dict_get.
    destruct (decide (c = n)) as [->|Hne].
    + rewrite decide_True by done. cbn [omap list_omap].
      f_equal; [f_equal; lia|].
      apply (matching_ids_none _ names n Hc).
    + rewrite decide_False by congruence.
      apply elem_of_cons in Hin as [?|Hin]; [congruence|].
      pose proof (place_pos n names Hin).
      etrans; [|etrans; [apply (IH (off + 1) Hnd Hin)|]].
      * f_equal. apply imap_ext. intros k o _. simpl. f_equal. lia.
      * destruct (place n names); try lia. f_equal. f_equal. lia.
Qed.

(** Among the categories written, the one at the place of a name is the
    only one with that name and the only one with that id. *)
Lemma category_at_place names n :
  NoDup names → n ∈ names →
  let cats := imap (λ k c, category_of (Z.of_nat k + 1) c) names in
  let cat := category_of (place n names) n in
  cat ∈ cats ∧
  (∀ cat', cat' ∈ cats → dict_get "name" cat' = Some (VStr n) → cat' = cat) ∧
  (∀ cat', cat' ∈ cats →
     dict_get "id" cat' = Some (VInt (place n names)) → cat' = cat).
Proof.
  intros Hnd Hin cats cat.
  pose proof (place_pos n names Hin) as Hpos.
  pose proof (place_lookup n names Hin) as Hl.
  split; [|split].
  - unfold cats, cat.
    replace (place n names)
      with (Z.of_nat (Z.to_nat (place n names - 1)) + 1) at 1 by lia.
    by apply (elem_of_lookup_imap_2
                (λ k c, category_of (Z.of_nat k + 1) c) names n).
  - intros cat' (k & c & -> & Hk)%elem_of_lookup_imap_1 Hname.
    assert (c = n) as -> by (simpl in Hname; congruence).
    pose proof (NoDup_lookup _ _ _ _ Hnd Hk Hl) as ->.
    unfold cat. f_equal. lia.
  - intros cat' (k & c & -> & Hk)%elem_of_lookup_imap_1 Hid.
    assert (Z.of_nat k + 1 = place n names) as Hkp
      by (simpl in Hid; congruence).
    assert (k = Z.to_nat (place n names - 1)) as -> by lia.
    rewrite Hl in Hk. injection Hk as <-.
    unfold cat. f_equal. lia.
Qed.

(** *** The resolution pass *)

Lemma resolve_annotation cats id io cid rest :
  matching_ids cats (VStr (name io.2)) = VInt cid :: rest →
  resolve cats (annotation_of id io) = Ok (written_annotation id cid io).
Proof. intros H. unfold resolve. simpl. by rewrite H. Qed.

Lemma resolve_all_annotations names (f : nat → Z) ios :
  NoDup names →
  Forall (λ io, name io.2 ∈ names) ios →
  resolve_all (imap (λ k c, category_of (Z.of_nat k + 1) c) names)
              (imap (λ k io, annotation_of (f k) io) ios)
  = Ok (imap (λ k io, written_annotation (f k) (place (name io.2) names) io)
             ios).
Proof.
  intros Hnd. revert f. induction ios as [|io ios IH]; intros f Hall; [done|].
  apply Forall_cons in Hall as [Hio Hall].
  cbn [imap resolve_all].
  rewrite (resolve_annotation _ _ _ (place (name io.2) names) []).
  - specialize (IH (f ∘ S) Hall). unfold compose in *. cbn beta in *.
    by rewrite IH.
  - assert (imap (λ k c, category_of (Z.of_nat k + 1) c) names =
            imap (λ k c, category_of (1 + Z.of_nat k) c) names) as ->
      by (apply imap_ext; intros k c _; f_equal; lia).
    rewrite (matching_ids_one 1 names _ Hnd Hio).
    by replace (1 - 1 + place (name io.2) names)
      with (place (name io.2) names) by lia.
Qed.

Section WithOrder.
Variable order : set_order.

Lemma sorted_names_NoDup ps : NoDup (sorted_names order ps).
Proof.
  unfold sorted_names. rewrite sorted_Permutation. apply set_list_NoDup.
Qed.

Lemma elem_of_sorted_names ps c :
  c ∈ sorted_names order ps ↔ c ∈ observed ps.
Proof.
  unfold sorted_names. rewrite sorted_Permutation. apply set_list_elem.
Qed.

(** The document of a split: the converter returns whenever the split file
    opens. *)
Lemma convert_split_run t set_name image_ids :
  split_file t set_name = Some image_ids →
  convert_split order t set_name =
    Ok (document_of order (processed t image_ids)).
Proof.
  intros Hs. unfold convert_split. rewrite Hs.
  change start with (build_of []). rewrite image_loop. simpl app.
  set (ps := processed t image_ids).
  unfold build_of. cbn [images annotations category_names].
  fold (sorted_names order ps). rewrite build_categories_run.
  rewrite (resolve_all_annotations _ (λ k, Z.of_nat k + 1)).
  - done.
  - apply sorted_names_NoDup.
  - apply Forall_forall. intros io Hio.
    apply elem_of_sorted_names. unfold observed.
    apply list_elem_of_fmap. by exists io.
Qed.

End WithOrder.

(** The names of the categories do not depend on the order in which the
    set hands them over. *)
Lemma sorted_names_order order1 order2 ps :
  sorted_names order1 ps = sorted_names order2 ps.
Proof.
  unfold sorted_names. apply sorted_unique.
  apply NoDup_Permutation; try apply set_list_NoDup.
  intros c. by rewrite !set_list_elem.
Qed.

(** *** What is written for a split *)

Lemma Forall2_imap_self {A B} (P : B → A → Prop) (f : nat → A → B) l :
  (∀ k x, P (f k x) x) → Forall2 P (imap f l) l.
Proof.
  revert f. induction l as [|x l IH]; intros f Hf; [constructor|].
  simpl. constructor; [apply Hf|]. apply IH. intros k y. apply Hf.
Qed.

Lemma Forall2_imap_elem {A B} (P : B → A → Prop) (f : nat → A → B) l :
  (∀ k x, x ∈ l → P (f k x) x) → Forall2 P (imap f l) l.
Proof.
  revert f. induction l as [|x l IH]; intros f Hf; [constructor|].
  simpl. constructor; [apply Hf; left|].
  apply IH. intros k y Hy. apply Hf. by right.
Qed.

Lemma sorted_names_single order ps c :
  observed ps ≠ [] → Forall (λ n, n = c) (observed ps) →
  sorted_names order ps = [c].
Proof.
  intros Hne Hall. unfold sorted_names.
  assert (set_list order (observed ps) = [c]) as ->; [|done].
  apply Permutation_singleton_r, NoDup_Permutation.
  - apply set_list_NoDup.
  - apply NoDup_singleton.
  - intros x. rewrite set_list_elem, list_elem_of_singleton.
    rewrite Forall_forall in Hall. split; [by apply Hall|].
    intros ->. destruct (observed ps) as [|n l]; [done|].
    rewrite <- (Hall n) by left. left.
Qed.

(** C6. For every split whose index file opens the converter returns a
    document, and its annotations are, object for object of the converted
    files, in order: bbox [[xmin, ymin, xmax - xmin, ymax - ymin]], area
    [(xmax - xmin) * (ymax - ymin)], iscrowd 0. A split of two ids, each
    with its image and an annotation file of one object of class ["tree"],
    gives 2 images, 2 annotations and the one category ["tree"] with id 1;
    for the box (10, 10, 50, 60) the document is the one written out
    below, with bbox [[10, 10, 40, 50]] and area 2000. *)
Theorem converter_boxes (order : set_order) (t : voc_tree)
    (set_name : str) (image_ids : list str) :
  split_file t set_name = Some image_ids →
  ∃ coco,
    convert_split order t set_name = Ok coco ∧
    Forall2 (λ ann io,
               dict_get "bbox" ann =
                 Some (VList [xmin io.2; ymin io.2;
                              xmax io.2 - xmin io.2; ymax io.2 - ymin io.2]) ∧
               dict_get "area" ann =
                 Some (VInt ((xmax io.2 - xmin io.2) *
                             (ymax io.2 - ymin io.2))) ∧
               dict_get "iscrowd" ann = Some (VInt 0))
            (out_annotations coco) (tagged (processed t image_ids)) ∧
    (∀ i1 i2 x1 x2 o1 o2,
       image_ids = [i1; i2] →
       image_exists t i1 = true → image_exists t i2 = true →
       annotation_file t i1 = Some x1 → annotation_file t i2 = Some x2 →
       objects x1 = [o1] → objects x2 = [o2] →
       name o1 = lit "tree" → name o2 = lit "tree" →
       length (out_images coco) = 2%nat ∧
       length (out_annotations coco) = 2%nat ∧
       out_categories coco = [category_of 1 (lit "tree")]) ∧
    convert_split order two_trees (lit "train") =
      Ok {| out_images :=
              [[("id", VInt 1); ("file_name", VStr (lit "a.jpg"));
                ("width", VInt 100); ("height", VInt 200)];
               [("id", VInt 2); ("file_name", VStr (lit "b.jpg"));
                ("width", VInt 100); ("height", VInt 200)]];
            out_annotations :=
              [[("id", VInt 1); ("image_id", VInt 1); ("category_id", VInt 1);
                ("bbox", VList [10; 10; 40; 50]); ("area", VInt 2000);
                ("iscrowd", VInt 0); ("difficult", VInt 0)];
               [("id", VInt 2); ("image_id", VInt 2); ("category_id", VInt 1);
                ("bbox", VList [10; 10; 40; 50]); ("area", VInt 2000);
                ("iscrowd", VInt 0); ("difficult", VInt 0)]];
            out_categories :=
              [[("id", VInt 1); ("name", VStr (lit "tree"));
                ("supercategory", VStr (lit "none"))]] |}.
Proof.
  intros Hs. exists (document_of order (processed t image_ids)).
  split; [by apply convert_split_run|]. split; [|split].
  - apply Forall2_imap_self. by intros k io.
  - intros i1 i2 x1 x2 o1 o2 -> He1 He2 Ha1 Ha2 Ho1 Ho2 Hn1 Hn2.
    assert (processed t [i1; i2] = [(i1, x1); (i2, x2)]) as Hp.
    { unfold processed. simpl. by rewrite He1, He2, Ha1, Ha2. }
    rewrite Hp. unfold document_of. cbn [out_images out_annotations
      out_categories].
    rewrite !length_imap.
    assert (tagged [(i1, x1); (i2, x2)] = [(1, o1); (2, o2)]) as Ht.
    { unfold tagged. simpl. by rewrite Ho1, Ho2. }
    rewrite Ht. split; [done|]. split; [done|].
    rewrite (sorted_names_single order _ (lit "tree")); [done| |].
    + unfold observed. by rewrite Ht.
    + unfold observed. rewrite Ht. simpl. rewrite Hn1, Hn2.
      by repeat constructor.
  - rewrite (convert_split_run order two_trees (lit "train")
               [lit "a"; lit "b"]) by done.
    unfold document_of.
    rewrite (sorted_names_single order _ (lit "tree")); [done|done|].
    by repeat constructor.
Qed.

Lemma converter_boxes_witness :
  split_file two_trees (lit "train") = Some [lit "a"; lit "b"] ∧
  ∃ coco,
    convert_split insertion_order two_trees (lit "train") = Ok coco ∧
    length (out_images coco) = 2%nat ∧
    length (out_annotations coco) = 2%nat ∧
    out_categories coco = [category_of 1 (lit "tree")].
Proof.
  assert (split_file two_trees (lit "train") = Some [lit "a"; lit "b"])
    as Hs by reflexivity.
  split; [exact Hs|].
  destruct (converter_boxes insertion_order two_trees (lit "train")
              [lit "a"; lit "b"] Hs) as (coco & Hok & _ & Htwo & _).
  exists coco. split; [exact Hok|].
  exact (Htwo (lit "a") (lit "b") tree_xml tree_xml tree_object tree_object
           eq_refl eq_refl eq_refl eq_refl eq_refl eq_refl eq_refl
           eq_refl eq_refl).
Defined.

(** C7. For every split whose index file opens, the categories written
    are, in order, the distinct class names of the objects converted for
    that split, in strictly ascending order of strings, with ids 1, 2, ... in
    that order and supercategory ["none"]; the document is the same whatever
    order the set of names hands its elements over in, and its annotations
    carry the ids 1, 2, ... in order. *)
Theorem converter_categories (order : set_order) (t : voc_tree)
    (set_name : str) (image_ids : list str) :
  split_file t set_name = Some image_ids →
  ∃ coco names,
    convert_split order t set_name = Ok coco ∧
    out_categories coco =
      imap (λ k c, [("id", VInt (Z.of_nat k + 1));
                    ("name", VStr c);
                    ("supercategory", VStr (lit "none"))]) names ∧
    StronglySorted str_lt names ∧
    (∀ c, c ∈ names ↔ c ∈ observed (processed t image_ids)) ∧
    (∀ order', convert_split order' t set_name = Ok coco) ∧
    (∀ k ann, out_annotations coco !! k = Some ann →
              dict_get "id" ann = Some (VInt (Z.of_nat k + 1))).
Proof.
  intros Hs.
  exists (document_of order (processed t image_ids)),
         (sorted_names order (processed t image_ids)).
  split; [by apply convert_split_run|]. split; [done|]. split; [|split; [|split]].
  - apply sorted_strict, set_list_NoDup.
  - apply elem_of_sorted_names.
  - intros order'. rewrite (convert_split_run order' t set_name image_ids Hs).
    unfold document_of.
    by rewrite (sorted_names_order order' order).
  - intros k ann. unfold document_of. cbn [out_annotations].
    rewrite list_lookup_imap.
    destruct (tagged (processed t image_ids) !! k); [|done].
    by intros [= <-].
Qed.

Lemma converter_categories_witness :
  split_file two_trees (lit "train") = Some [lit "a"; lit "b"] ∧
  ∃ coco names,
    convert_split insertion_order two_trees (lit "train") = Ok coco ∧
    StronglySorted str_lt names ∧
    (∀ c, c ∈ names ↔
          c ∈ observed (processed two_trees [lit "a"; lit "b"])).
Proof.
  assert (split_file two_trees (lit "train") = Some [lit "a"; lit "b"])
    as Hs by reflexivity.
  split; [exact Hs|].
  destruct (converter_categories insertion_order two_trees (lit "train")
              [lit "a"; lit "b"] Hs) as (coco & names & Hok & _ & Hst & Hin & _).
  exists coco, names. split; [exact Hok|]. split; [exact Hst | exact Hin].
Defined.

(** C8. The converter raises only when the index file of the split cannot
    be opened: the lookup of the resolution pass never fails. In the
    document every annotation has, object for object, no key
    ["category_name"] and as ["category_id"] the one id that the lookup by
    name finds in the categories written. That id is the id of a category
    of the document which carries the class name of the object; no other
    category of the document has that name, and none has that id. *)
Theorem converter_resolution (order : set_order) (t : voc_tree)
    (set_name : str) :
  match split_file t set_name with
  | None => convert_split order t set_name = Raise FileNotFoundError
  | Some image_ids =>
      ∃ coco,
        convert_split order t set_name = Ok coco ∧
        Forall2 (λ ann io,
                   dict_get "category_name" ann = None ∧
                   ∃ category_id cat,
                     dict_get "category_id" ann = Some (VInt category_id) ∧
                     matching_ids (out_categories coco) (VStr (name io.2)) =
                       [VInt category_id] ∧
                     cat ∈ out_categories coco ∧
                     dict_get "id" cat = Some (VInt category_id) ∧
                     dict_get "name" cat = Some (VStr (name io.2)) ∧
                     (∀ cat', cat' ∈ out_categories coco →
                        dict_get "name" cat' = Some (VStr (name io.2)) →
                        cat' = cat) ∧
                     (∀ cat', cat' ∈ out_categories coco →
                        dict_get "id" cat' = Some (VInt category_id) →
                        cat' = cat))
                (out_annotations coco) (tagged (processed t image_ids))
  end.
Proof.
  destruct (split_file t set_name) as [image_ids|] eqn:Hs.
  - exists (document_of order (processed t image_ids)).
    split; [by apply convert_split_run|].
    unfold document_of. cbn [out_annotations out_categories].
    set (ps := processed t image_ids).
    apply Forall2_imap_elem. intros k io Hio.
    assert (name io.2 ∈ sorted_names order ps) as Hin.
    { apply elem_of_sorted_names. unfold observed.
      apply list_elem_of_fmap. by exists io. }
    split; [done|].
    destruct (category_at_place _ _ (sorted_names_NoDup order ps) Hin)
      as (Hcat & Hname & Hid).
    exists (place (name io.2) (sorted_names order ps)),
           (category_of (place (name io.2) (sorted_names order ps))
                        (name io.2)).
    split; [done|]. split.
    { assert (imap (λ k c, category_of (Z.of_nat k + 1) c)
                   (sorted_names order ps) =
              imap (λ k c, category_of (1 + Z.of_nat k) c)
                   (sorted_names order ps)) as ->
        by (apply imap_ext; intros k' c _; f_equal; lia).
      rewrite (matching_ids_one 1 _ _ (sorted_names_NoDup order ps) Hin).
      by replace (1 - 1 + place (name io.2) (sorted_names order ps))
        with (place (name io.2) (sorted_names order ps)) by lia. }
    split; [exact Hcat|]. split; [done|]. split; [done|].
    split; [exact Hname | exact Hid].
  - unfold convert_split. by rewrite Hs.
Qed.

Lemma converter_resolution_witness :
  ∃ coco ann,
    convert_split insertion_order gap_tree (lit "train") = Ok coco ∧
    out_annotations coco !! 0%nat = Some ann ∧
    out_categories coco =
      [category_of 1 (lit "fir"); category_of 2 (lit "pine")] ∧
    dict_get "category_name" ann = None ∧
    dict_get "category_id" ann = Some (VInt 2).
Proof.
  pose proof (converter_resolution insertion_order gap_tree (lit "train"))
    as H.
  change (split_file gap_tree (lit "train"))
    with (Some [lit "a"; lit "gone"; lit "b"]) in H.
  destruct H as (coco & Hok & HF).
  assert (∃ ann anns, out_annotations coco = ann :: anns ∧
            out_categories coco =
              [category_of 1 (lit "fir"); category_of 2 (lit "pine")])
    as (ann & anns & Hann & Hcats).
  { assert (convert_split insertion_order gap_tree (lit "train") =
              Ok (document_of insertion_order
                    (processed gap_tree [lit "a"; lit "gone"; lit "b"])))
      as Hrun by (by apply convert_split_run).
    rewrite Hrun in Hok. injection Hok as <-.
    eexists _, _. split; reflexivity. }
  exists coco, ann. split; [exact Hok|].
  split; [by rewrite Hann|]. split; [exact Hcats|].
  rewrite Hann in HF.
  let ios := eval vm_compute in
    (tagged (processed gap_tree [lit "a"; lit "gone"; lit "b"])) in
  change (tagged (processed gap_tree [lit "a"; lit "gone"; lit "b"]))
    with ios in HF.
  apply Forall2_cons_1 in HF
    as [(Hname & cid & cat & Hcid & _ & _ & Hid & _ & Huniq & _) _].
  split; [exact Hname|].
  rewrite Hcats in Huniq.
  assert (category_of 2 (lit "pine") = cat) as Hcat.
  { apply Huniq; [|reflexivity]. right. left. }
  rewrite <- Hcat in Hid. injection Hid as <-. exact Hcid.
Defined.

(** C9. In the document every annotation has, object for object, the key
    ["difficult"] with the integer of the object's [difficult] element, and
    its keys are, in order, id, image_id, category_id, bbox, area, iscrowd,
    difficult. *)
Theorem converter_difficult (order : set_order) (t : voc_tree)
    (set_name : str) :
  match split_file t set_name with
  | None => convert_split order t set_name = Raise FileNotFoundError
  | Some image_ids =>
      ∃ coco,
        convert_split order t set_name = Ok coco ∧
        Forall2 (λ ann io,
                   dict_get "difficult" ann = Some (VInt (difficult io.2)) ∧
                   dict_keys ann =
                     ["id"; "image_id"; "category_id"; "bbox"; "area";
                      "iscrowd"; "difficult"])
                (out_annotations coco) (tagged (processed t image_ids))
  end.
Proof.
  destruct (split_file t set_name) as [image_ids|] eqn:Hs.
  - exists (document_of order (processed t image_ids)).
    split; [by apply convert_split_run|].
    apply Forall2_imap_self. by intros k io.
  - unfold convert_split. by rewrite Hs.
Qed.

(** The whole run: when both index files open, the two documents are
    written, [train] first, and nothing is raised. *)
Lemma voc_to_coco_run order t train_ids val_ids :
  split_file t (lit "train") = Some train_ids →
  split_file t (lit "val") = Some val_ids →
  voc_to_coco order t =
    ([(lit "train", document_of order (processed t train_ids));
      (lit "val", document_of order (processed t val_ids))], None).
Proof.
  intros Ht Hv. unfold voc_to_coco. simpl.
  by rewrite (convert_split_run order t _ _ Ht),
             (convert_split_run order t _ _ Hv).
Qed.

(** *** More on what is written *)

Lemma processed_app t l1 l2 :
  processed t (l1 ++ l2) = processed t l1 ++ processed t l2.
Proof. unfold processed. apply omap_app. Qed.

Lemma processed_missing t i : missing t i → processed t [i] = [].
Proof.
  unfold missing, processed. simpl. intros [-> | ->]; [done|].
  by destruct (image_exists t i).
Qed.

Lemma processed_all_missing t ids : Forall (missing t) ids → processed t ids = [].
Proof.
  induction 1 as [|i ids Hi _ IH]; [done|].
  by rewrite processed_cons, processed_missing, IH.
Qed.

Lemma processed_length t ids : (length (processed t ids) ≤ length ids)%nat.
Proof.
  induction ids as [|i ids IH]; [done|].
  rewrite processed_cons, length_app. simpl length at 3.
  assert (length (processed t [i]) ≤ 1)%nat; [|lia].
  unfold processed. simpl. destruct (image_exists t i); [|simpl; lia].
  destruct (annotation_file t i); simpl; lia.
Qed.

Lemma set_list_nil order : set_list order [] = [].
Proof.
  destruct (set_list order []) as [|c l] eqn:E; [done|].
  assert (c ∈ set_list order []) as Hc by (rewrite E; left).
  apply set_list_elem in Hc. by apply elem_of_nil in Hc.
Qed.

(** Where a tagged object comes from. *)
Lemma tagged_origin ps :
  Forall (λ io, ∃ n p, ps !! n = Some p ∧ io.1 = Z.of_nat n + 1 ∧
                       io.2 ∈ objects p.2)
         (tagged ps).
Proof.
  induction ps as [|p ps IH] using rev_ind; [constructor|].
  rewrite tagged_snoc. apply Forall_app. split.
  - eapply Forall_impl; [exact IH|].
    intros io (n & q & Hn & Hio & Hobj). exists n, q.
    split; [|done]. by apply lookup_app_l_Some.
  - apply Forall_fmap, Forall_forall. intros obj Hobj. simpl.
    exists (length ps), p. split; [|done].
    by rewrite lookup_app_r, Nat.sub_diag.
Qed.

Lemma tagged_length ps :
  length (tagged ps) = sum_list_with (λ p, length (objects p.2)) ps.
Proof.
  induction ps as [|p ps IH] using rev_ind; [done|].
  rewrite tagged_snoc, length_app, length_fmap, sum_list_with_app, IH.
  simpl. lia.
Qed.

Lemma NoDup_numbered {A B} (g : Z → B) `{!Inj (=) (=) g} (l : list A) :
  NoDup (imap (λ n _, g (Z.of_nat n + 1)) l).
Proof.
  rewrite imap_seq_0. apply NoDup_fmap_2_strong; [|apply NoDup_seq].
  intros n m _ _ H. apply (inj g) in H. lia.
Qed.

#[local] Instance Some_VInt_inj : Inj (=) (=) (λ n, Some (VInt n)).
Proof. by intros n m [= ->]. Qed.

Section Written.
Variable order : set_order.

(** X12. An id whose image or annotation file is missing leaves no trace:
    the document is the one of the index file without that id, so the ids
    after it are numbered as if it were not there. *)
Theorem converter_skips_missing (t : voc_tree) (set_name : str)
    (before after : list str) (image_id : str) :
  split_file t set_name = Some (before ++ image_id :: after) →
  missing t image_id →
  convert_split order t set_name =
    convert_split order (with_split t set_name (before ++ after)) set_name.
Proof.
  intros Hs Hm.
  rewrite (convert_split_run order t _ _ Hs).
  rewrite (convert_split_run order (with_split t set_name (before ++ after))
             set_name (before ++ after))
    by (simpl; by rewrite decide_True).
  change (processed (with_split t set_name (before ++ after)))
    with (processed t).
  rewrite !processed_app, (processed_cons t image_id after).
  by rewrite processed_missing.
Qed.

(** X13. A split none of whose ids has both files is written all the same,
    as a document with no image, no annotation and no category. *)
Theorem converter_empty_split (t : voc_tree) (set_name : str)
    (image_ids : list str) :
  split_file t set_name = Some image_ids →
  Forall (missing t) image_ids →
  convert_split order t set_name =
    Ok {| out_images := []; out_annotations := []; out_categories := [] |}.
Proof.
  intros Hs Hm. rewrite (convert_split_run order t _ _ Hs).
  rewrite processed_all_missing by done.
  unfold document_of, sorted_names, observed. simpl.
  by rewrite set_list_nil.
Qed.

(** X14. The images written are those of the ids whose two files exist, in
    the order of the index file: numbered from 1, named by the id with
    [.jpg], with the width and height of the annotation file; there are at
    most as many as ids. *)
Theorem converter_images (t : voc_tree) (set_name : str)
    (image_ids : list str) :
  split_file t set_name = Some image_ids →
  ∃ coco,
    convert_split order t set_name = Ok coco ∧
    out_images coco =
      imap (λ n p, [("id", VInt (Z.of_nat n + 1));
                    ("file_name", VStr (p.1 ++ lit ".jpg"));
                    ("width", VInt (width p.2));
                    ("height", VInt (height p.2))])
           (processed t image_ids) ∧
    (length (out_images coco) ≤ length image_ids)%nat.
Proof.
  intros Hs. exists (document_of order (processed t image_ids)).
  split; [by apply convert_split_run|]. split; [done|].
  unfold document_of. simpl. rewrite length_imap. apply processed_length.
Qed.

(** X15. The ids of the document hold together: no two images, no two
    annotations and no two categories share an id, every annotation names
    the id of an image that is written, and there is one annotation for
    each object of the files converted. *)
Theorem converter_ids_closed (t : voc_tree) (set_name : str)
    (image_ids : list str) :
  split_file t set_name = Some image_ids →
  ∃ coco,
    convert_split order t set_name = Ok coco ∧
    NoDup ((λ img, dict_get "id" img) <$> out_images coco) ∧
    NoDup ((λ ann, dict_get "id" ann) <$> out_annotations coco) ∧
    NoDup ((λ cat, dict_get "id" cat) <$> out_categories coco) ∧
    Forall (λ ann, ∃ img, img ∈ out_images coco ∧
                          is_Some (dict_get "id" img) ∧
                          dict_get "image_id" ann = dict_get "id" img)
           (out_annotations coco) ∧
    length (out_annotations coco) =
      sum_list_with (λ p, length (objects p.2)) (processed t image_ids).
Proof.
  intros Hs. exists (document_of order (processed t image_ids)).
  split; [by apply convert_split_run|].
  unfold document_of. cbn [out_images out_annotations out_categories].
  set (ps := processed t image_ids).
  rewrite !fmap_imap. unfold compose. simpl.
  split; [apply (NoDup_numbered (λ n, Some (VInt n)))|].
  split; [apply (NoDup_numbered (λ n, Some (VInt n)))|].
  split; [apply (NoDup_numbered (λ n, Some (VInt n)))|].
  split; [|by rewrite length_imap, tagged_length].
  apply Forall_forall. intros ann (k & io & -> & Hk)%elem_of_lookup_imap_1.
  pose proof (tagged_origin ps) as Ho. rewrite Forall_forall in Ho.
  destruct (Ho io) as (n & p & Hn & Hio & _);
    [by eapply list_elem_of_lookup_2|].
  exists (image_of (Z.of_nat n + 1) p). split; [|split].
  - by apply (elem_of_lookup_imap_2 (λ n p, image_of (Z.of_nat n + 1) p) ps p n).
  - by eexists.
  - simpl. by rewrite Hio.
Qed.

(** X16. Boxes with their corners in order get sizes that are not
    negative. *)
Theorem converter_oriented_boxes (t : voc_tree) (set_name : str)
    (image_ids : list str) :
  split_file t set_name = Some image_ids →
  Forall (λ p, Forall oriented (objects p.2)) (processed t image_ids) →
  ∃ coco,
    convert_split order t set_name = Ok coco ∧
    Forall (λ ann, ∃ x y w h,
              dict_get "bbox" ann = Some (VList [x; y; w; h]) ∧
              dict_get "area" ann = Some (VInt (w * h)) ∧
              (0 ≤ w)%Z ∧ (0 ≤ h)%Z ∧ (0 ≤ w * h)%Z)
           (out_annotations coco).
Proof.
  intros Hs Hor. exists (document_of order (processed t image_ids)).
  split; [by apply convert_split_run|].
  unfold document_of. cbn [out_annotations].
  set (ps := processed t image_ids) in *.
  apply Forall_forall. intros ann (k & io & -> & Hk)%elem_of_lookup_imap_1.
  pose proof (tagged_origin ps) as Ho. rewrite Forall_forall in Ho.
  destruct (Ho io) as (n & p & Hn & _ & Hobj);
    [by eapply list_elem_of_lookup_2|].
  rewrite Forall_forall in Hor.
  specialize (Hor p (list_elem_of_lookup_2 _ _ _ Hn)).
  rewrite Forall_forall in Hor. destruct (Hor _ Hobj) as [Hx Hy].
  exists (xmin io.2), (ymin io.2), (xmax io.2 - xmin io.2),
         (ymax io.2 - ymin io.2).
  split; [done|]. split; [done|]. split; [lia|]. split; [lia | nia].
Qed.

(** X17. The category an annotation points to carries the class name of its
    object. *)
Theorem converter_category_join (t : voc_tree) (set_name : str)
    (image_ids : list str) :
  split_file t set_name = Some image_ids →
  ∃ coco,
    convert_split order t set_name = Ok coco ∧
    Forall2 (λ ann io, ∃ category_id cat,
               dict_get "category_id" ann = Some (VInt category_id) ∧
               (1 ≤ category_id ≤ len (out_categories coco))%Z ∧
               out_categories coco !! Z.to_nat (category_id - 1) = Some cat ∧
               dict_get "id" cat = Some (VInt category_id) ∧
               dict_get "name" cat = Some (VStr (name io.2)))
            (out_annotations coco) (tagged (processed t image_ids)).
Proof.
  intros Hs. exists (document_of order (processed t image_ids)).
  split; [by apply convert_split_run|].
  unfold document_of. cbn [out_annotations out_categories].
  set (ps := processed t image_ids).
  apply Forall2_imap_elem. intros k io Hio.
  assert (name io.2 ∈ sorted_names order ps) as Hin.
  { apply elem_of_sorted_names. unfold observed.
    apply list_elem_of_fmap. by exists io. }
  pose proof (place_pos _ _ Hin) as Hpos.
  pose proof (place_lookup _ _ Hin) as Hl.
  exists (place (name io.2) (sorted_names order ps)),
         (category_of (place (name io.2) (sorted_names order ps)) (name io.2)).
  split; [done|]. split.
  - split; [lia|]. unfold len. rewrite length_imap.
    apply lookup_lt_Some in Hl. lia.
  - split; [|done]. rewrite list_lookup_imap, Hl. simpl.
    do 2 f_equal. lia.
Qed.

(** X18. How a run ends, by the index files that open: the splits are
    converted in the order train, val, and the first index file that does
    not open ends the run with [FileNotFoundError], the documents before it
    staying written. *)
Theorem voc_to_coco_outcome (t : voc_tree) :
  match split_file t (lit "train"), split_file t (lit "val") with
  | None, _ => voc_to_coco order t = ([], Some FileNotFoundError)
  | Some _, None =>
      ∃ train, convert_split order t (lit "train") = Ok train ∧
        voc_to_coco order t =
          ([(lit "train", train)], Some FileNotFoundError)
  | Some _, Some _ =>
      ∃ train val,
        convert_split order t (lit "train") = Ok train ∧
        convert_split order t (lit "val") = Ok val ∧
        voc_to_coco order t = ([(lit "train", train); (lit "val", val)], None)
  end.
Proof.
  unfold voc_to_coco. simpl.
  destruct (split_file t (lit "train")) as [train_ids|] eqn:Ht.
  - rewrite (convert_split_run order t _ _ Ht).
    destruct (split_file t (lit "val")) as [val_ids|] eqn:Hv.
    + rewrite (convert_split_run order t _ _ Hv). eauto.
    + unfold convert_split at 1. rewrite Hv. eauto.
  - unfold convert_split. by rewrite Ht.
Qed.

End Written.

(** *** The same on [gap_tree] *)

Lemma converter_skips_missing_witness :
  split_file gap_tree (lit "train") =
    Some ([lit "a"] ++ lit "gone" :: [lit "b"]) ∧
  missing gap_tree (lit "gone") ∧
  convert_split insertion_order gap_tree (lit "train") =
    convert_split insertion_order
      (with_split gap_tree (lit "train") ([lit "a"] ++ [lit "b"]))
      (lit "train").
Proof.
  assert (split_file gap_tree (lit "train") =
            Some ([lit "a"] ++ lit "gone" :: [lit "b"])) as Hs by reflexivity.
  assert (missing gap_tree (lit "gone")) as Hm by (left; reflexivity).
  split; [exact Hs|]. split; [exact Hm|].
  exact (converter_skips_missing insertion_order gap_tree (lit "train")
           [lit "a"] [lit "b"] (lit "gone") Hs Hm).
Defined.

Lemma converter_empty_split_witness :
  split_file lost_tree (lit "val") = Some [lit "gone"; lit "bare"] ∧
  Forall (missing lost_tree) [lit "gone"; lit "bare"] ∧
  convert_split insertion_order lost_tree (lit "val") =
    Ok {| out_images := []; out_annotations := []; out_categories := [] |}.
Proof.
  assert (split_file lost_tree (lit "val") = Some [lit "gone"; lit "bare"])
    as Hs by reflexivity.
  assert (Forall (missing lost_tree) [lit "gone"; lit "bare"]) as Hm.
  { constructor; [left; reflexivity|].
    constructor; [right; reflexivity | constructor]. }
  split; [exact Hs|]. split; [exact Hm|].
  exact (converter_empty_split insertion_order lost_tree (lit "val")
           [lit "gone"; lit "bare"] Hs Hm).
Defined.

Lemma converter_images_witness :
  split_file gap_tree (lit "train") = Some [lit "a"; lit "gone"; lit "b"] ∧
  ∃ coco,
    convert_split insertion_order gap_tree (lit "train") = Ok coco ∧
    (length (out_images coco) ≤ 3)%nat.
Proof.
  assert (split_file gap_tree (lit "train") =
            Some [lit "a"; lit "gone"; lit "b"]) as Hs by reflexivity.
  split; [exact Hs|].
  destruct (converter_images insertion_order gap_tree (lit "train") _ Hs)
    as (coco & Hok & _ & Hlen).
  exists coco. split; [exact Hok | exact Hlen].
Defined.

Lemma converter_ids_closed_witness :
  split_file gap_tree (lit "train") = Some [lit "a"; lit "gone"; lit "b"] ∧
  ∃ coco,
    convert_split insertion_order gap_tree (lit "train") = Ok coco ∧
    NoDup ((λ ann, dict_get "id" ann) <$> out_annotations coco) ∧
    length (out_annotations coco) = 4%nat.
Proof.
  assert (split_file gap_tree (lit "train") =
            Some [lit "a"; lit "gone"; lit "b"]) as Hs by reflexivity.
  split; [exact Hs|].
  destruct (converter_ids_closed insertion_order gap_tree (lit "train") _ Hs)
    as (coco & Hok & _ & Hnd & _ & _ & Hlen).
  exists coco. split; [exact Hok|]. split; [exact Hnd | exact Hlen].
Defined.

Lemma converter_oriented_boxes_witness :
  split_file gap_tree (lit "train") = Some [lit "a"; lit "gone"; lit "b"] ∧
  Forall (λ p, Forall oriented (objects p.2))
         (processed gap_tree [lit "a"; lit "gone"; lit "b"]) ∧
  ∃ coco,
    convert_split insertion_order gap_tree (lit "train") = Ok coco ∧
    Forall (λ ann, ∃ x y w h,
              dict_get "bbox" ann = Some (VList [x; y; w; h]) ∧
              dict_get "area" ann = Some (VInt (w * h)) ∧
              (0 ≤ w)%Z ∧ (0 ≤ h)%Z ∧ (0 ≤ w * h)%Z)
           (out_annotations coco).
Proof.
  assert (split_file gap_tree (lit "train") =
            Some [lit "a"; lit "gone"; lit "b"]) as Hs by reflexivity.
  assert (Forall (λ p, Forall oriented (objects p.2))
                 (processed gap_tree [lit "a"; lit "gone"; lit "b"])) as Hor.
  { repeat constructor; simpl; discriminate. }
  split; [exact Hs|]. split; [exact Hor|].
  exact (converter_oriented_boxes insertion_order gap_tree (lit "train") _
           Hs Hor).
Defined.

Lemma converter_category_join_witness :
  split_file gap_tree (lit "train") = Some [lit "a"; lit "gone"; lit "b"] ∧
  ∃ coco,
    convert_split insertion_order gap_tree (lit "train") = Ok coco ∧
    length (out_annotations coco) =
      length (tagged (processed gap_tree [lit "a"; lit "gone"; lit "b"])).
Proof.
  assert (split_file gap_tree (lit "train") =
            Some [lit "a"; lit "gone"; lit "b"]) as Hs by reflexivity.
  split; [exact Hs|].
  destruct (converter_category_join insertion_order gap_tree (lit "train") _
              Hs) as (coco & Hok & Hjoin).
  exists coco. split; [exact Hok|].
  exact (Forall2_length _ _ _ Hjoin).
Defined.

End Voc2CocoFacts.

